(** * Uplift portfolio profit engine: a shallow embedding of
      [streamlit_app/utils/calculations.py]

    The Python module works on pandas data frames of customer rows and on
    binary64 numbers.  Data frames are modelled as lists of records,
    exceptions as an explicit [result] type, and the number type as an
    interface [FloatOps], so that the general statements hold for whatever
    arithmetic implements it.  Two implementations are given: IEEE binary64
    (Rocq's primitive floats), in which the concrete counterexamples are
    evaluated, and exact rational arithmetic with NaN, for which the laws
    some statements assume are proved. *)

From Stdlib Require Import String.
From Stdlib Require Import ZArith QArith Qround List Bool Lia Permutation Sorted.
From Stdlib Require Import Floats.PrimFloat Floats.FloatOps Floats.SpecFloat.
From Stdlib Require Import Numbers.Cyclic.Int63.Uint63.
Import ListNotations.
Local Open Scope Z_scope.

(** ** Exceptions and the error monad *)

(** [ValueError] and [OverflowError] are the built-in exceptions that pandas
    ([qcut]: "Bin edges must be unique"), numpy ([argmax] of an empty
    sequence) and [int()] (NaN, resp. infinity) can raise.
    [ValidationError] and [InsufficientDataError] are the two exceptions the
    specification names; no [raise] statement of the module constructs them. *)
Inductive exn : Type :=
| ValueError
| OverflowError
| ValidationError
| InsufficientDataError.

Inductive result (A : Type) : Type :=
| Ok (a : A)
| Raise (e : exn).
Arguments Ok {A} a.
Arguments Raise {A} e.

Definition bind {A B : Type} (m : result A) (k : A -> result B) : result B :=
  match m with
  | Ok a => k a
  | Raise e => Raise e
  end.

Notation "x <- m ;; k" := (bind m (fun x => k))
  (at level 61, m at next level, right associativity).

(** ** The number interface *)

(** What the module needs from Python's [float]: conversion from [int],
    the three arithmetic operations it uses, the comparison [<=], the NaN
    test and the truncation performed by [int()] ([None] on NaN and on
    infinities). *)
Class FloatOps (F : Type) : Type := {
  of_Z : Z -> F;
  fnan : F;
  fsub : F -> F -> F;
  fmul : F -> F -> F;
  fdiv : F -> F -> F;
  fleb : F -> F -> bool;
  is_nan : F -> bool;
  ftrunc : F -> option Z
}.

(** Laws of the interface that some statements rely on.  All of them hold
    of IEEE binary64: [<=] is a total preorder on the numbers that are not
    NaN, [0 - 0 = 0] and [0 * 100 = 0]. *)
Class FloatLaws (F : Type) {FO : FloatOps F} : Prop := {
  fleb_total : forall x y : F,
    is_nan x = false -> is_nan y = false -> fleb x y = true \/ fleb y x = true;
  fleb_trans : forall x y z : F,
    fleb x y = true -> fleb y z = true -> fleb x z = true;
  fsub_zero : fsub (of_Z 0) (of_Z 0) = of_Z 0;
  fmul_zero_100 : fmul (of_Z 0) (of_Z 100) = of_Z 0
}.

(** ** Generic list helpers (pandas / Python primitives) *)

(** [len(x)] *)
Definition len {A : Type} (l : list A) : Z := Z.of_nat (length l).

(** A stable sort: insertion from the right keeps equal keys in their
    original order. *)
Fixpoint insert_by {A : Type} (leb : A -> A -> bool) (x : A) (l : list A)
  : list A :=
  match l with
  | [] => [x]
  | y :: l' => if leb x y then x :: l else y :: insert_by leb x l'
  end.

Definition sort_by {A : Type} (leb : A -> A -> bool) (l : list A) : list A :=
  fold_right (insert_by leb) [] l.

(** [DataFrame.head(n)]: the first [n] rows, and for a negative [n] all rows
    but the last [-n]. *)
Definition head {A : Type} (n : Z) (l : list A) : list A :=
  if 0 <=? n then firstn (Z.to_nat n) l
  else firstn (length l - Z.to_nat (- n)) l.

(** [range(start, stop, step)] for a positive step. *)
Definition py_range (start stop step : Z) : list Z :=
  if 0 <? step
  then map (fun i => start + step * Z.of_nat i)
           (seq 0 (Z.to_nat ((stop - start + step - 1) / step)))
  else [].

(** Position of [i] in a list of indices. *)
Fixpoint index_of (i : nat) (l : list nat) : option nat :=
  match l with
  | [] => None
  | j :: l' => if Nat.eqb i j then Some 0%nat else option_map S (index_of i l')
  end.

(** ** [pandas.qcut] on integer-valued data

    [qcut(x, q, labels=False)] computes the [q+1] quantile edges of the
    non-missing values by linear interpolation, refuses duplicated edges and
    returns for each value the index of the bin (left-open, right-closed,
    lowest edge included) it falls in.  Edges are rationals here: the
    interpolation is carried out exactly. *)

Definition dropna (xs : list (option Z)) : list Z :=
  flat_map (fun o => match o with Some v => [v] | None => [] end) xs.

Definition Qltb (a b : Q) : bool := negb (Qle_bool b a).

(** Quantile [k/q] of the sorted values [s], interpolation "linear":
    virtual index [h = (n-1) * k/q], value [s[i] + (h - i) * (s[i+1] - s[i])]
    with [i = floor h] and [i+1] clipped to the last index. *)
Definition quantile_linear (s : list Z) (k q : Z) : Q :=
  let n := len s in
  let h := (inject_Z ((n - 1) * k) / inject_Z q)%Q in
  let i := Qfloor h in
  let gamma := (h - inject_Z i)%Q in
  let lo := nth (Z.to_nat i) s 0 in
  let hi := nth (Z.to_nat (Z.min (i + 1) (n - 1))) s 0 in
  (inject_Z lo + gamma * inject_Z (hi - lo))%Q.

Fixpoint has_dup (l : list Q) : bool :=
  match l with
  | [] => false
  | x :: l' => existsb (Qeq_bool x) l' || has_dup l'
  end.

(** [bins.searchsorted(x, side="left")] on sorted edges: the number of edges
    strictly below [x]. *)
Definition searchsorted_left (bins : list Q) (x : Q) : Z :=
  len (filter (fun b => Qltb b x) bins).

Definition cut_label (bins : list Q) (x : option Z) : option Z :=
  match x with
  | None => None
  | Some v =>
      let ids :=
        if Qeq_bool (inject_Z v) (nth 0 bins 0%Q) then 1
        else searchsorted_left bins (inject_Z v) in
      if (ids =? 0) || (ids =? len bins) then None else Some (ids - 1)
  end.

(** The [q+1] edges: the quantiles [0/q, 1/q, ..., q/q] of the sorted
    values. *)
Definition qcut_bins (s : list Z) (q : Z) : list Q :=
  map (fun k => quantile_linear s (Z.of_nat k) q) (seq 0 (Z.to_nat q + 1)).

Definition qcut (xs : list (option Z)) (q : Z) : result (list (option Z)) :=
  match sort_by Z.leb (dropna xs) with
  | [] => Raise ValueError
  | s =>
      let bins := qcut_bins s q in
      if has_dup bins then Raise ValueError
      else Ok (map (cut_label bins) xs)
  end.

Section Engine.

Context {F : Type} {FO : FloatOps F}.

(** ** Data model *)

(** A row of the CSV file: [uplift_score], [treatment], [y_true]. *)
Record RawRow : Type := {
  raw_uplift_score : F;
  raw_treatment : Z;
  raw_y_true : Z
}.

(** A row of the prepared frame; [decile] is [None] where pandas stores
    NaN (the score was missing). *)
Record Row : Type := {
  uplift_score : F;
  treatment : Z;
  y_true : Z;
  decile : option Z
}.

(** The dictionary returned by the profit functions; [pool_size] is absent
    ([None]) from the one of [calculate_spray_and_pray]. *)
Record ProfitDict : Type := {
  profit : F;
  revenue : F;
  cost : F;
  incremental_conversions : F;
  emails_sent : Z;
  pool_size : option Z
}.

(** A row of the frame built by [calculate_decile_stats]. *)
Record DecileStats : Type := {
  ds_decile : Z;
  n_customers : Z;
  n_treated : Z;
  n_control : Z;
  treatment_rate : F;
  control_rate : F;
  observed_lift : F;
  uplift_rate : F
}.

(** A row of the frame returned by [calculate_decile_profits]: the stats
    columns and the four added ones. *)
Record DecileProfit : Type := {
  dp_stats : DecileStats;
  dp_incremental_conv : F;
  dp_cost : F;
  dp_revenue : F;
  dp_profit : F
}.

(** The dictionary returned by [calculate_profit_curve]. *)
Record ProfitCurve : Type := {
  percentages : list Z;
  profits : list F;
  optimal_pct : Z;
  optimal_profit : F
}.

(** ** pandas primitives that depend on the number type *)

(** [Series.rank(method='first')]: positions in the stable ascending order of
    the non-missing values, counted from 1; missing values keep NaN. *)
Definition argsort (xs : list F) : list nat :=
  sort_by (fun i j => fleb (nth i xs fnan) (nth j xs fnan))
          (filter (fun i => negb (is_nan (nth i xs fnan)))
                  (seq 0 (length xs))).

Definition rank_first (xs : list F) : list (option Z) :=
  let order := argsort xs in
  map (fun i => option_map (fun p => Z.of_nat (S p)) (index_of i order))
      (seq 0 (length xs)).

(** [Series.mean()] of an integer column: NaN when the column is empty. *)
Definition mean (ys : list Z) : F :=
  match ys with
  | [] => fnan
  | _ => fdiv (of_Z (fold_right Z.add 0 ys)) (of_Z (len ys))
  end.

(** [int(x)] *)
Definition py_int (x : F) : result Z :=
  match ftrunc x with
  | Some k => Ok k
  | None => Raise (if is_nan x then ValueError else OverflowError)
  end.

(** [df.sort_values('uplift_score', ascending=False)]: descending scores,
    missing scores last.  pandas leaves the order of equal scores to the
    sorting algorithm; the stable order is taken here and no statement below
    depends on that choice. *)
Definition sort_values_desc (df : list Row) : list Row :=
  sort_by (fun a b => fleb (uplift_score b) (uplift_score a))
          (filter (fun r => negb (is_nan (uplift_score r))) df)
  ++ filter (fun r => is_nan (uplift_score r)) df.

(** [df['decile'].isin(selected_deciles)] on one row. *)
Definition isin (d : option Z) (selected_deciles : list Z) : bool :=
  match d with
  | Some v => existsb (Z.eqb v) selected_deciles
  | None => false
  end.

(** [df['decile'] == decile] on one row. *)
Definition decile_is (d : Z) (r : Row) : bool :=
  match decile r with
  | Some v => v =? d
  | None => false
  end.

(** [np.argmax] on a sequence of floats: a left-to-right scan that moves to
    an element when it is not [<=] the running maximum and stops at the
    first NaN. *)
Fixpoint argmax_scan (mp : F) (max_ind i : nat) (l : list F) : nat :=
  match l with
  | [] => max_ind
  | x :: l' =>
      if negb (fleb x mp)
      then (if is_nan x then i else argmax_scan x i (S i) l')
      else argmax_scan mp max_ind (S i) l'
  end.

Definition argmax (l : list F) : result nat :=
  match l with
  | [] => Raise ValueError
  | x :: l' => Ok (if is_nan x then 0%nat else argmax_scan x 0 1 l')
  end.

(** ** The functions of [calculations.py] *)

(** [load_and_prepare_data], from the parsed CSV rows on. *)
Definition load_and_prepare_data (raw : list RawRow) : result (list Row) :=
  labels <- qcut (rank_first (map raw_uplift_score raw)) 10 ;;
  Ok (map (fun rl : RawRow * option Z =>
             {| uplift_score := raw_uplift_score (fst rl);
                treatment := raw_treatment (fst rl);
                y_true := raw_y_true (fst rl);
                decile := option_map (fun l => l + 1) (snd rl) |})
          (combine raw labels)).

Definition decile_stats_row (df : list Row) (d : Z) : DecileStats :=
  let subset := filter (decile_is d) df in
  let treated := filter (fun r => treatment r =? 1) subset in
  let control := filter (fun r => treatment r =? 0) subset in
  let n_total := len subset in
  let n_treated := len treated in
  let n_control := len control in
  let '(treat_rate, ctrl_rate, uplift_rate) :=
    if (0 <? n_treated) && (0 <? n_control)
    then
      let treat_rate := mean (map y_true treated) in
      let ctrl_rate := mean (map y_true control) in
      (treat_rate, ctrl_rate, fsub treat_rate ctrl_rate)
    else (of_Z 0, of_Z 0, of_Z 0) in
  {| ds_decile := d;
     n_customers := n_total;
     n_treated := n_treated;
     n_control := n_control;
     treatment_rate := fmul treat_rate (of_Z 100);
     control_rate := fmul ctrl_rate (of_Z 100);
     observed_lift := fmul uplift_rate (of_Z 100);
     uplift_rate := uplift_rate |}.

Definition calculate_decile_stats (df : list Row) : list DecileStats :=
  map (decile_stats_row df) (py_range 1 11 1).

(** The eligible pool and the targeted rows of [calculate_portfolio_profit],
    named so that statements can speak of them. *)
Definition eligible_pool (df : list Row) (selected_deciles : list Z)
  : list Row :=
  filter (fun r => isin (decile r) selected_deciles) df.

Definition targeted_rows (pool : list Row) (n_target : Z) : list Row :=
  head n_target (sort_values_desc pool).

Definition calculate_portfolio_profit
    (df : list Row) (selected_deciles : list Z)
    (target_pct email_cost profit_per_conversion : F) : result ProfitDict :=
  let pool := eligible_pool df selected_deciles in
  let pool_size := len pool in
  if pool_size =? 0 then
    Ok {| profit := of_Z 0;
          revenue := of_Z 0;
          cost := of_Z 0;
          incremental_conversions := of_Z 0;
          emails_sent := 0;
          pool_size := Some 0 |}
  else
    n_target <- py_int (fmul (of_Z pool_size) target_pct) ;;
    let n_target := if n_target =? 0 then 1 else n_target in
    let targeted := targeted_rows pool n_target in
    let treated := filter (fun r => treatment r =? 1) targeted in
    let control := filter (fun r => treatment r =? 0) targeted in
    let n_treated := len treated in
    let n_control := len control in
    let incr_conv :=
      if (0 <? n_treated) && (0 <? n_control)
      then
        let treat_rate := mean (map y_true treated) in
        let ctrl_rate := mean (map y_true control) in
        let uplift_rate := fsub treat_rate ctrl_rate in
        fmul uplift_rate (of_Z n_target)
      else of_Z 0 in
    let cost := fmul (of_Z n_target) email_cost in
    let revenue := fmul incr_conv profit_per_conversion in
    let profit := fsub revenue cost in
    Ok {| profit := profit;
          revenue := revenue;
          cost := cost;
          incremental_conversions := incr_conv;
          emails_sent := n_target;
          pool_size := Some pool_size |}.

Definition calculate_spray_and_pray
    (df : list Row) (email_cost profit_per_conversion : F) : ProfitDict :=
  let n_total := len df in
  let treated := filter (fun r => treatment r =? 1) df in
  let control := filter (fun r => treatment r =? 0) df in
  let treat_rate := mean (map y_true treated) in
  let ctrl_rate := mean (map y_true control) in
  let uplift_rate := fsub treat_rate ctrl_rate in
  let incr_conv := fmul uplift_rate (of_Z n_total) in
  let cost := fmul (of_Z n_total) email_cost in
  let revenue := fmul incr_conv profit_per_conversion in
  let profit := fsub revenue cost in
  {| profit := profit;
     revenue := revenue;
     cost := cost;
     incremental_conversions := incr_conv;
     emails_sent := n_total;
     pool_size := None |}.

(** The [for pct_int in range(5, 105, 5)] loop, threading the two lists it
    appends to; an exception of the callee leaves the loop. *)
Fixpoint profit_curve_loop
    (df : list Row) (selected_deciles : list Z)
    (email_cost profit_per_conversion : F)
    (grid : list Z) (percentages : list Z) (profits : list F)
  : result (list Z * list F) :=
  match grid with
  | [] => Ok (percentages, profits)
  | pct_int :: grid' =>
      let pct := fdiv (of_Z pct_int) (of_Z 100) in
      r <- calculate_portfolio_profit
             df selected_deciles pct email_cost profit_per_conversion ;;
      profit_curve_loop df selected_deciles email_cost profit_per_conversion
        grid' (percentages ++ [pct_int]) (profits ++ [profit r])
  end.

Definition calculate_profit_curve
    (df : list Row) (selected_deciles : list Z)
    (email_cost profit_per_conversion : F) (n_points : Z)
  : result ProfitCurve :=
  pp <- profit_curve_loop df selected_deciles email_cost
          profit_per_conversion (py_range 5 105 5) [] [] ;;
  optimal_idx <- argmax (snd pp) ;;
  Ok {| percentages := fst pp;
        profits := snd pp;
        optimal_pct := nth optimal_idx (fst pp) 0;
        optimal_profit := nth optimal_idx (snd pp) fnan |}.

Definition decile_profit_row (email_cost profit_per_conversion : F)
    (s : DecileStats) : DecileProfit :=
  let incremental_conv := fmul (uplift_rate s) (of_Z (n_customers s)) in
  let cost := fmul (of_Z (n_customers s)) email_cost in
  let revenue := fmul incremental_conv profit_per_conversion in
  let profit := fsub revenue cost in
  {| dp_stats := s;
     dp_incremental_conv := incremental_conv;
     dp_cost := cost;
     dp_revenue := revenue;
     dp_profit := profit |}.

Definition calculate_decile_profits
    (decile_stats : list DecileStats) (email_cost profit_per_conversion : F)
  : list DecileProfit :=
  map (decile_profit_row email_cost profit_per_conversion) decile_stats.

(** Number of rows labelled with decile [d]. *)
Definition group_size (d : Z) (df : list Row) : Z :=
  len (filter (decile_is d) df).

End Engine.

Arguments RawRow F : clear implicits.
Arguments Row F : clear implicits.
Arguments ProfitDict F : clear implicits.
Arguments DecileStats F : clear implicits.
Arguments DecileProfit F : clear implicits.
Arguments ProfitCurve F : clear implicits.

(** ** Exact arithmetic as an implementation of the number interface

    Rationals kept in lowest terms, and NaN.  On dyadic rationals of small
    size every operation below returns what binary64 returns, so the
    concrete evaluations further down can be replayed in Python.  Division
    by zero has no rational value and gives NaN; the module only divides by
    the literal 100 and, in [mean], by a positive count. *)
Inductive xfloat : Type :=
| XNaN
| XFin (q : Q).

Definition xf_sub (a b : xfloat) : xfloat :=
  match a, b with
  | XFin p, XFin q => XFin (Qred (p - q))
  | _, _ => XNaN
  end.

Definition xf_mul (a b : xfloat) : xfloat :=
  match a, b with
  | XFin p, XFin q => XFin (Qred (p * q))
  | _, _ => XNaN
  end.

Definition xf_div (a b : xfloat) : xfloat :=
  match a, b with
  | XFin p, XFin q => if Qeq_bool q 0 then XNaN else XFin (Qred (p / q))
  | _, _ => XNaN
  end.

Definition xf_leb (a b : xfloat) : bool :=
  match a, b with
  | XFin p, XFin q => Qle_bool p q
  | _, _ => false
  end.

Definition xf_is_nan (a : xfloat) : bool :=
  match a with
  | XNaN => true
  | XFin _ => false
  end.

(** [int()] truncates towards zero. *)
Definition xf_trunc (a : xfloat) : option Z :=
  match a with
  | XNaN => None
  | XFin q => Some (Z.quot (Qnum q) (Zpos (Qden q)))
  end.

#[export] Instance xfloat_ops : FloatOps xfloat := {
  of_Z := fun z => XFin (inject_Z z);
  fnan := XNaN;
  fsub := xf_sub;
  fmul := xf_mul;
  fdiv := xf_div;
  fleb := xf_leb;
  is_nan := xf_is_nan;
  ftrunc := xf_trunc
}.

(** ** IEEE binary64 as an implementation of the number interface

    Rocq's primitive floats are binary64 with round-to-nearest-even, the
    arithmetic of Python's [float].  [int -> float] is the conversion of a
    63-bit integer, enough for every count and literal of the module. *)
Definition b64_of_Z (z : Z) : float :=
  if 0 <=? z then PrimFloat.of_uint63 (Uint63.of_Z z)
  else PrimFloat.opp (PrimFloat.of_uint63 (Uint63.of_Z (- z))).

(** [int()]: the integer part of a finite float, from its mantissa and
    exponent. *)
Definition b64_trunc (x : float) : option Z :=
  match Prim2SF x with
  | S754_zero _ => Some 0
  | S754_finite s m e =>
      let a := if 0 <=? e then Z.shiftl (Zpos m) e
               else Z.shiftr (Zpos m) (- e) in
      Some (if s then - a else a)
  | S754_infinity _ => None
  | S754_nan => None
  end.

#[export] Instance binary64_ops : FloatOps float := {
  of_Z := b64_of_Z;
  fnan := PrimFloat.nan;
  fsub := PrimFloat.sub;
  fmul := PrimFloat.mul;
  fdiv := PrimFloat.div;
  fleb := PrimFloat.leb;
  is_nan := PrimFloat.is_nan;
  ftrunc := b64_trunc
}.

(** The float [n / d]. *)
Definition b64 (n d : Z) : float := PrimFloat.div (b64_of_Z n) (b64_of_Z d).

(** ** Example data

    The frames are written once, over a function [num n d] that builds the
    number [n/d], and instantiated for both implementations.  All scores and
    parameters are dyadic, so they are the same numbers in both. *)
Definition xq (n : Z) (d : positive) : xfloat := XFin (n # d).

Definition xnum (n d : Z) : xfloat := xq n (Z.to_pos d).

Definition raw {F : Type} (score : F) (t y : Z) : RawRow F :=
  {| raw_uplift_score := score; raw_treatment := t; raw_y_true := y |}.

Definition row {F : Type} (score : F) (t y d : Z) : Row F :=
  {| uplift_score := score; treatment := t; y_true := y; decile := Some d |}.

(** The selection "all deciles". *)
Definition all_deciles : list Z := py_range 1 11 1.

(** Four customers in the deciles 1, 2, 3 and 10. *)
Definition frame4_of {F : Type} (num : Z -> Z -> F) : list (Row F) :=
  [ row (num 1 2) 1 1 1;
    row (num 1 4) 0 0 2;
    row (num 3 4) 1 0 3;
    row (num 1 8) 0 1 10 ].

(** A frame whose only row is a treated customer: no control arm. *)
Definition frame_treated_only_of {F : Type} (num : Z -> Z -> F)
  : list (Row F) :=
  [ row (num 1 2) 1 1 1 ].

(** Five CSV rows, three of them with the same score. *)
Definition raw5_of {F : Type} (num : Z -> Z -> F) : list (RawRow F) :=
  [ raw (num 1 2) 1 1; raw (num 1 2) 0 0; raw (num 1 4) 1 0;
    raw (num 3 4) 0 1; raw (num 1 2) 1 1 ].

(** Twelve CSV rows, all with the same score. *)
Definition raw12_of {F : Type} (num : Z -> Z -> F) : list (RawRow F) :=
  map (fun i => raw (num 1 2) (Z.of_nat (Nat.modulo i 2)) 1) (seq 0 12).

Definition frame4 : list (Row xfloat) := frame4_of xnum.
Definition frame_treated_only : list (Row xfloat) := frame_treated_only_of xnum.
Definition raw5 : list (RawRow xfloat) := raw5_of xnum.
Definition raw12 : list (RawRow xfloat) := raw12_of xnum.

Definition frame4_b64 : list (Row float) := frame4_of b64.
Definition frame_treated_only_b64 : list (Row float) :=
  frame_treated_only_of b64.
Definition raw5_b64 : list (RawRow float) := raw5_of b64.
Definition raw12_b64 : list (RawRow float) := raw12_of b64.

(** ** The callers in [app.py] and [charts.py]

    Only the computations are modelled: what [main] derives from the
    checkboxes, and the data [build_decile_bars] hands to plotly.  Widgets,
    layout constants and number formatting are not represented. *)

(** [range(start, stop, step)] for a negative step. *)
Definition py_range_down (start stop step : Z) : list Z :=
  if step <? 0
  then map (fun i => start + step * Z.of_nat i)
           (seq 0 (Z.to_nat ((start - stop - step - 1) / (- step))))
  else [].

(** The loop of [main] that fills [selected_deciles]: [checked i] is the
    value the checkbox of decile [i] returns in this run. *)
Fixpoint select_deciles_loop (checked : Z -> bool) (grid : list Z)
    (selected_deciles : list Z) : list Z :=
  match grid with
  | [] => selected_deciles
  | i :: grid' =>
      select_deciles_loop checked grid'
        (if checked i then selected_deciles ++ [i] else selected_deciles)
  end.

Definition selected_deciles_of (checked : Z -> bool) : list Z :=
  select_deciles_loop checked (py_range_down 10 0 (-1)) [].

(** [excluded = [d for d in all_deciles if d not in selected_deciles]] *)
Definition excluded_deciles (selected_deciles : list Z) : list Z :=
  filter (fun d => negb (existsb (Z.eqb d) selected_deciles)) all_deciles.

(** A failed [.iloc[0]] raises [IndexError]. *)
Inductive chart_result (A : Type) : Type :=
| ChartOk (a : A)
| IndexError.
Arguments ChartOk {A} a.
Arguments IndexError {A}.

Definition iloc0 {A : Type} (l : list A) : chart_result A :=
  match l with
  | x :: _ => ChartOk x
  | [] => IndexError
  end.

Section Charts.

Context {F : Type} {FO : FloatOps F}.

(** [x > 0] and [x < 0] on floats, from [<=]: both are false on NaN. *)
Definition is_positive (x : F) : bool :=
  fleb (of_Z 0) x && negb (fleb x (of_Z 0)).

Definition is_negative (x : F) : bool :=
  fleb x (of_Z 0) && negb (fleb (of_Z 0) x).

(** The three lists the colour loop of [build_decile_bars] appends to. *)
Record BarStyles : Type := {
  bar_colors : list string;
  bar_opacities : list F;
  bar_patterns : list string
}.

Fixpoint bar_styles_loop (rows : list (DecileProfit F))
    (selected_deciles : list Z)
    (colors : list string) (opacities : list F) (patterns : list string)
  : BarStyles :=
  match rows with
  | [] => {| bar_colors := colors;
             bar_opacities := opacities;
             bar_patterns := patterns |}
  | row :: rows' =>
      let decile := ds_decile (dp_stats row) in
      let profit := dp_profit row in
      let is_selected := existsb (Z.eqb decile) selected_deciles in
      if negb is_selected then
        bar_styles_loop rows' selected_deciles
          (colors ++ ["#bdc3c7"%string])
          (opacities ++ [fdiv (of_Z 4) (of_Z 10)])
          (patterns ++ ["/"%string])
      else if decile =? 9 then
        bar_styles_loop rows' selected_deciles
          (colors ++ ["#e74c3c"%string])
          (opacities ++ [fdiv (of_Z 9) (of_Z 10)])
          (patterns ++ [EmptyString])
      else if is_positive profit then
        bar_styles_loop rows' selected_deciles
          (colors ++ ["#27ae60"%string])
          (opacities ++ [fdiv (of_Z 9) (of_Z 10)])
          (patterns ++ [EmptyString])
      else
        bar_styles_loop rows' selected_deciles
          (colors ++ ["#95a5a6"%string])
          (opacities ++ [fdiv (of_Z 9) (of_Z 10)])
          (patterns ++ [EmptyString])
  end.

(** One [fig.add_annotation] call. *)
Record Annotation : Type := {
  ann_x : Z;
  ann_y : F;
  ann_text : string;
  ann_arrowcolor : string;
  ann_yshift : Z
}.

(** The data of the figure. *)
Record DecileBars : Type := {
  bars_x : list Z;
  bars_y : list F;
  bars_styles : BarStyles;
  bars_annotations : list Annotation
}.

Definition build_decile_bars
    (decile_profits : list (DecileProfit F)) (selected_deciles : list Z)
  : chart_result DecileBars :=
  let df := decile_profits in
  let styles := bar_styles_loop df selected_deciles [] [] [] in
  match iloc0 (filter (fun r => ds_decile (dp_stats r) =? 8) df) with
  | IndexError => IndexError
  | ChartOk d8_row =>
      match iloc0 (filter (fun r => ds_decile (dp_stats r) =? 9) df) with
      | IndexError => IndexError
      | ChartOk d9_row =>
          let persuadables :=
            if existsb (Z.eqb 8) selected_deciles
               && is_positive (dp_profit d8_row)
            then [ {| ann_x := 8; ann_y := dp_profit d8_row;
                      ann_text := "Persuadables"%string;
                      ann_arrowcolor := "#27ae60"%string;
                      ann_yshift := 30 |} ]
            else [] in
          let loyalty_tax :=
            if existsb (Z.eqb 9) selected_deciles
            then [ {| ann_x := 9; ann_y := dp_profit d9_row;
                      ann_text := "Loyalty Tax"%string;
                      ann_arrowcolor := "#e74c3c"%string;
                      ann_yshift := if is_negative (dp_profit d9_row)
                                    then -30 else 30 |} ]
            else [] in
          ChartOk {| bars_x := map (fun r => ds_decile (dp_stats r)) df;
                     bars_y := map dp_profit df;
                     bars_styles := styles;
                     bars_annotations := persuadables ++ loyalty_tax |}
      end
  end.

End Charts.

Arguments BarStyles F : clear implicits.
Arguments Annotation F : clear implicits.
Arguments DecileBars F : clear implicits.

(** The style of one bar, as the branches of the colour loop choose it
    (used to state what the loop computes). *)
Definition bar_style_of {F : Type} {FO : FloatOps F}
    (selected_deciles : list Z) (row : DecileProfit F)
  : string * F * string :=
  let decile := ds_decile (dp_stats row) in
  if negb (existsb (Z.eqb decile) selected_deciles)
  then ("#bdc3c7"%string, fdiv (of_Z 4) (of_Z 10), "/"%string)
  else if decile =? 9
  then ("#e74c3c"%string, fdiv (of_Z 9) (of_Z 10), EmptyString)
  else if is_positive (dp_profit row)
  then ("#27ae60"%string, fdiv (of_Z 9) (of_Z 10), EmptyString)
  else ("#95a5a6"%string, fdiv (of_Z 9) (of_Z 10), EmptyString).

(** Two records with a missing score around twelve records with one. *)
Definition raw14_b64 : list (RawRow float) :=
  raw PrimFloat.nan 1 0 :: raw12_b64 ++ [raw PrimFloat.nan 0 1].

(** The frames that [load_and_prepare_data] returns for the examples. *)
Definition rows5 : list (Row xfloat) :=
  Eval vm_compute in
    match load_and_prepare_data raw5 with Ok rows => rows | Raise _ => [] end.

Definition rows5_b64 : list (Row float) :=
  Eval vm_compute in
    match load_and_prepare_data raw5_b64 with
    | Ok rows => rows
    | Raise _ => []
    end.

Definition rows14_b64 : list (Row float) :=
  Eval vm_compute in
    match load_and_prepare_data raw14_b64 with
    | Ok rows => rows
    | Raise _ => []
    end.

(** ** Definitions that follow the specification's words *)

(** Python's [round]: to the nearest integer, halves to the even one. *)
Definition spec_round (q : Q) : Z :=
  let f := Qfloor q in
  let r := (q - inject_Z f)%Q in
  if Qltb r (1 # 2) then f
  else if Qltb (1 # 2) r then f + 1
  else if Z.even f then f else f + 1.

(** "the top [round(pool_size * f)] records, with a floor of 1" *)
Definition spec_targeted_count (pool_size : Z) (f : Q) : Z :=
  Z.max 1 (spec_round (inject_Z pool_size * f)).

(** "[f] in (0,1], [email_cost] > 0, [profit_per_conversion] > 0" *)
Definition spec_valid_params {F : Type} {FO : FloatOps F}
    (f email_cost profit_per_conversion : F) : bool :=
  negb (fleb f (of_Z 0)) && fleb f (of_Z 1)
  && negb (fleb email_cost (of_Z 0))
  && negb (fleb profit_per_conversion (of_Z 0)).

(** The three accounting identities of the specification, for a result
    with the given figures and [n] customers targeted. *)
Definition accounting_identities {F : Type} {FO : FloatOps F}
    (email_cost profit_per_conversion : F)
    (profit revenue cost incremental : F) (n : Z) : Prop :=
  profit = fsub revenue cost /\
  revenue = fmul incremental profit_per_conversion /\
  cost = fmul (of_Z n) email_cost.

(** The sweep grid, written out. *)
Definition grid20 : list Z :=
  [5; 10; 15; 20; 25; 30; 35; 40; 45; 50;
   55; 60; 65; 70; 75; 80; 85; 90; 95; 100].

(** ** Auxiliary definitions for the decile proofs *)

(** [zseq a n] is [a; a+1; ...; a+n-1]. *)
Fixpoint zseq (a : Z) (n : nat) : list Z :=
  match n with
  | O => []
  | S n' => a :: zseq (a + 1) n'
  end.

(** The decile that falls out of [qcut] for rank [r] among [m+1] distinct
    ranks: the number of edges [1 + m*k/10], [k = 0..10], strictly below
    [r], and 1 for the lowest rank. *)
Definition rank_decile (m r : Z) : Z :=
  if r =? 1 then 1
  else len (filter (fun k => m * Z.of_nat k <? 10 * (r - 1)) (seq 0 11)).

(** [a] occurs before [b] in [l]. *)
Definition precedes {A : Type} (a b : A) (l : list A) : Prop :=
  exists l1 l2 l3, l = l1 ++ a :: l2 ++ b :: l3.

(** The rank that [rank_first] gives to position [i]. *)
Definition rank_at {F : Type} {FO : FloatOps F} (xs : list F) (i : nat)
  : option Z :=
  option_map (fun p => Z.of_nat (S p)) (index_of i (argsort xs)).

(** The results of the twenty evaluations of the sweep on [frame4]. *)
Definition frame4_curve_results : list (ProfitDict xfloat) :=
  Eval vm_compute in
    flat_map
      (fun pct =>
         match calculate_portfolio_profit frame4 all_deciles
                 (fdiv (of_Z pct) (of_Z 100)) (xq 1 2) (xq 10 1) with
         | Ok r => [r]
         | Raise _ => []
         end)
      grid20.

(** * Theorems *)

Section EngineFacts.

Context {F : Type} {FO : FloatOps F}.

Implicit Types (df pool : list (Row F)) (sel : list Z) (f c p : F).

Lemma len_nil_iff {A : Type} (l : list A) : len l = 0 <-> l = [].
Proof.
  unfold len. destruct l; simpl; split; intros H; try reflexivity; try lia.
  discriminate.
Qed.

Lemma len_nonneg {A : Type} (l : list A) : 0 <= len l.
Proof. unfold len. lia. Qed.

Lemma eligible_pool_nil df sel :
  (forall r, In r df -> isin (decile r) sel = false) ->
  eligible_pool df sel = [].
Proof.
  intros H. unfold eligible_pool.
  induction df as [|r df IH]; simpl; [reflexivity|].
  rewrite (H r (or_introl eq_refl)). apply IH.
  intros r' Hr'. apply H. right. exact Hr'.
Qed.

(** C8: when the included-decile set matches no record,
    [calculate_portfolio_profit] returns (it does not raise) the result whose
    profit, revenue, cost, incremental conversions, emails sent and pool size
    are all zero, whatever the other parameters are. *)
Theorem portfolio_empty_pool_all_zero df sel f c p :
  (forall r, In r df -> isin (decile r) sel = false) ->
  calculate_portfolio_profit df sel f c p =
    Ok {| profit := of_Z 0;
          revenue := of_Z 0;
          cost := of_Z 0;
          incremental_conversions := of_Z 0;
          emails_sent := 0;
          pool_size := Some 0 |}.
Proof.
  intros H. unfold calculate_portfolio_profit.
  rewrite (eligible_pool_nil df sel H). reflexivity.
Qed.

(** C10: [n_points] is ignored by [calculate_profit_curve]: two calls that
    differ only in it return the same percentages, profits, optimal
    percentage and optimal profit (or raise the same exception). *)
Theorem profit_curve_ignores_n_points df sel c p (n_points n_points' : Z) :
  calculate_profit_curve df sel c p n_points =
  calculate_profit_curve df sel c p n_points'.
Proof. reflexivity. Qed.

(** ** Permutation facts about the sorting primitives *)

Lemma insert_by_perm {A : Type} (leb : A -> A -> bool) (x : A) (l : list A) :
  Permutation (insert_by leb x l) (x :: l).
Proof.
  induction l as [|y l IH]; simpl.
  - apply Permutation_refl.
  - destruct (leb x y).
    + apply Permutation_refl.
    + eapply perm_trans; [apply perm_skip, IH | apply perm_swap].
Qed.

Lemma sort_by_perm {A : Type} (leb : A -> A -> bool) (l : list A) :
  Permutation (sort_by leb l) l.
Proof.
  induction l as [|x l IH]; simpl.
  - apply perm_nil.
  - eapply perm_trans; [apply insert_by_perm | apply perm_skip, IH].
Qed.

Lemma filter_split_perm {A : Type} (g : A -> bool) (l : list A) :
  Permutation (filter (fun x => negb (g x)) l ++ filter g l) l.
Proof.
  induction l as [|x l IH]; simpl.
  - apply perm_nil.
  - destruct (g x); simpl.
    + apply Permutation_sym, Permutation_cons_app, Permutation_sym, IH.
    + apply perm_skip, IH.
Qed.

Lemma sort_values_desc_perm pool : Permutation (sort_values_desc pool) pool.
Proof.
  unfold sort_values_desc.
  eapply perm_trans; [|apply (filter_split_perm (fun r => is_nan (uplift_score r)))].
  apply Permutation_app_tail, sort_by_perm.
Qed.

Lemma sort_values_desc_length pool :
  length (sort_values_desc pool) = length pool.
Proof. apply Permutation_length, sort_values_desc_perm. Qed.

Lemma head_length {A : Type} (n : Z) (l : list A) :
  0 <= n <= len l -> len (head n l) = n.
Proof.
  unfold head, len. intros [H0 H1].
  destruct (0 <=? n) eqn:E; [|apply Z.leb_gt in E; lia].
  rewrite length_firstn. lia.
Qed.

(** The count [n_target] as the code computes it from the value of
    [int(pool_size * target_pct)]. *)
Lemma portfolio_nonempty_unfold df sel f c p k :
  eligible_pool df sel <> [] ->
  ftrunc (fmul (of_Z (len (eligible_pool df sel))) f) = Some k ->
  exists r,
    calculate_portfolio_profit df sel f c p = Ok r /\
    emails_sent r = (if k =? 0 then 1 else k) /\
    pool_size r = Some (len (eligible_pool df sel)) /\
    cost r = fmul (of_Z (emails_sent r)) c /\
    revenue r = fmul (incremental_conversions r) p /\
    profit r = fsub (revenue r) (cost r).
Proof.
  intros Hne Hk. unfold calculate_portfolio_profit.
  destruct (len (eligible_pool df sel) =? 0) eqn:E.
  - apply Z.eqb_eq, len_nil_iff in E. contradiction.
  - unfold py_int. rewrite Hk. simpl.
    eexists. split; [reflexivity|]. simpl. repeat split; reflexivity.
Qed.

(** C4 (amended): for a non-empty eligible pool, the number of targeted
    records is the truncation [int(pool_size * f)] of the product, not its
    rounding, replaced by 1 when the truncation is 0; when that count does
    not exceed the pool, the targeted set has exactly that many records. *)
Theorem portfolio_targets_truncated_count df sel f c p k :
  eligible_pool df sel <> [] ->
  ftrunc (fmul (of_Z (len (eligible_pool df sel))) f) = Some k ->
  exists r,
    calculate_portfolio_profit df sel f c p = Ok r /\
    emails_sent r = (if k =? 0 then 1 else k) /\
    (0 <= k <= len (eligible_pool df sel) ->
     len (targeted_rows (eligible_pool df sel) (emails_sent r))
       = emails_sent r).
Proof.
  intros Hne Hk.
  destruct (portfolio_nonempty_unfold df sel f c p k Hne Hk)
    as (r & Hr & Hn & _).
  exists r. split; [exact Hr|]. split; [exact Hn|].
  intros Hrange. unfold targeted_rows. apply head_length.
  assert (Hpos : 0 < len (eligible_pool df sel)).
  { pose proof (len_nonneg (eligible_pool df sel)) as H0.
    destruct (Z.eq_dec (len (eligible_pool df sel)) 0) as [E|E]; [|lia].
    apply len_nil_iff in E. contradiction. }
  replace (len (sort_values_desc (eligible_pool df sel)))
    with (len (eligible_pool df sel))
    by (unfold len; now rewrite sort_values_desc_length).
  rewrite Hn. destruct (k =? 0) eqn:E; [lia|].
  apply Z.eqb_neq in E. lia.
Qed.


(** ** When the baseline agrees with the portfolio estimator *)

Lemma sum_perm (l l' : list Z) :
  Permutation l l' -> fold_right Z.add 0 l = fold_right Z.add 0 l'.
Proof. induction 1; simpl; lia. Qed.

Lemma mean_perm (l l' : list Z) : Permutation l l' -> mean l = mean l'.
Proof.
  intros H. unfold mean.
  destruct l as [|x l]; destruct l' as [|x' l'].
  - reflexivity.
  - apply Permutation_nil in H. discriminate.
  - apply Permutation_sym, Permutation_nil in H. discriminate.
  - rewrite (sum_perm _ _ H). unfold len. rewrite (Permutation_length H).
    reflexivity.
Qed.

Lemma filter_perm {A : Type} (g : A -> bool) (l l' : list A) :
  Permutation l l' -> Permutation (filter g l) (filter g l').
Proof.
  induction 1; simpl.
  - apply perm_nil.
  - destruct (g x); [apply perm_skip|]; assumption.
  - destruct (g x), (g y); try apply Permutation_refl. apply perm_swap.
  - eapply perm_trans; eassumption.
Qed.

Lemma filter_all {A : Type} (g : A -> bool) (l : list A) :
  (forall x, In x l -> g x = true) -> filter g l = l.
Proof.
  induction l as [|x l IH]; intros H; simpl; [reflexivity|].
  rewrite (H x (or_introl eq_refl)). f_equal. apply IH.
  intros y Hy. apply H. right. exact Hy.
Qed.

Lemma head_all {A : Type} (l : list A) : head (len l) l = l.
Proof.
  unfold head, len. destruct (0 <=? Z.of_nat (length l)) eqn:E.
  - rewrite Nat2Z.id. apply firstn_all.
  - apply Z.leb_gt in E. lia.
Qed.

(** On a frame in which both experimental arms occur, every row of which
    lies in a selected decile, and for which [int(len(df) * 1.0)] is
    [len(df)], the baseline and the portfolio estimator at fraction 1
    return the same five figures: the two functions can only disagree on
    a frame that lacks an arm, where [calculate_spray_and_pray] has no guard
    around the two means. *)
Lemma spray_matches_portfolio_on_both_arms df sel c p :
  (forall r, In r df -> isin (decile r) sel = true) ->
  filter (fun r => treatment r =? 1) df <> [] ->
  filter (fun r => treatment r =? 0) df <> [] ->
  ftrunc (fmul (of_Z (len df)) (of_Z 1)) = Some (len df) ->
  exists r,
    calculate_portfolio_profit df sel (of_Z 1) c p = Ok r /\
    profit r = profit (calculate_spray_and_pray df c p) /\
    revenue r = revenue (calculate_spray_and_pray df c p) /\
    cost r = cost (calculate_spray_and_pray df c p) /\
    incremental_conversions r =
      incremental_conversions (calculate_spray_and_pray df c p) /\
    emails_sent r = emails_sent (calculate_spray_and_pray df c p).
Proof.
  intros Hsel Ht Hc Hk.
  assert (Hpool : eligible_pool df sel = df).
  { unfold eligible_pool. apply filter_all. exact Hsel. }
  assert (Hne : df <> []).
  { intros ->. apply Ht. reflexivity. }
  assert (Hlen : (len df =? 0) = false).
  { apply Z.eqb_neq. intros E. apply len_nil_iff in E. contradiction. }
  unfold calculate_portfolio_profit. rewrite Hpool, Hlen.
  unfold py_int. rewrite Hk. simpl. rewrite Hlen.
  assert (Hl : len (sort_values_desc df) = len df)
    by (unfold len; now rewrite sort_values_desc_length).
  assert (Hh : head (len df) (sort_values_desc df) = sort_values_desc df)
    by (rewrite <- Hl; apply head_all).
  unfold targeted_rows. rewrite Hh.
  pose proof (sort_values_desc_perm df) as Hperm.
  set (T := filter (fun r => treatment r =? 1) (sort_values_desc df)).
  set (C := filter (fun r => treatment r =? 0) (sort_values_desc df)).
  assert (HT : Permutation T (filter (fun r => treatment r =? 1) df))
    by (apply filter_perm, Hperm).
  assert (HC : Permutation C (filter (fun r => treatment r =? 0) df))
    by (apply filter_perm, Hperm).
  assert (HTpos : (0 <? len T) = true).
  { apply Z.ltb_lt. unfold len. rewrite (Permutation_length HT).
    destruct (filter (fun r => treatment r =? 1) df); [contradiction|].
    simpl. lia. }
  assert (HCpos : (0 <? len C) = true).
  { apply Z.ltb_lt. unfold len. rewrite (Permutation_length HC).
    destruct (filter (fun r => treatment r =? 0) df); [contradiction|].
    simpl. lia. }
  rewrite HTpos, HCpos. simpl.
  rewrite (mean_perm _ _ (Permutation_map y_true HT)).
  rewrite (mean_perm _ _ (Permutation_map y_true HC)).
  eexists. split; [reflexivity|]. unfold calculate_spray_and_pray. simpl.
  repeat split; reflexivity.
Qed.

(** ** Accounting identities *)


(** ** Decile statistics *)

Lemma decile_stats_row_spec {FL : FloatLaws F} df d :
  let s := decile_stats_row df d in
  ds_decile s = d /\
  n_customers s = group_size d df /\
  n_treated s = len (filter (fun r => treatment r =? 1)
                            (filter (decile_is d) df)) /\
  n_control s = len (filter (fun r => treatment r =? 0)
                            (filter (decile_is d) df)) /\
  (n_treated s = 0 \/ n_control s = 0 ->
   treatment_rate s = of_Z 0 /\ control_rate s = of_Z 0 /\
   observed_lift s = of_Z 0 /\ uplift_rate s = of_Z 0).
Proof.
  unfold decile_stats_row, group_size.
  set (T := len (filter (fun r => treatment r =? 1) (filter (decile_is d) df))).
  set (C := len (filter (fun r => treatment r =? 0) (filter (decile_is d) df))).
  destruct ((0 <? T) && (0 <? C)) eqn:E; simpl.
  - repeat split; try reflexivity;
      apply andb_true_iff in E; destruct E as [E1 E2];
      apply Z.ltb_lt in E1, E2; destruct H; lia.
  - repeat split; try reflexivity; apply fmul_zero_100.
Qed.

(** C9: [calculate_decile_stats] returns one row for each decile 1, ..., 10
    in this order, whether or not the decile has members; the counts of a
    row are those of its decile, and when the treated arm or the control arm
    of a decile is empty, the two conversion rates and the lift of its row
    are 0. *)
Theorem decile_stats_one_row_per_decile {FL : FloatLaws F} df :
  map ds_decile (calculate_decile_stats df) = [1; 2; 3; 4; 5; 6; 7; 8; 9; 10] /\
  Forall (fun s =>
            n_customers s = group_size (ds_decile s) df /\
            n_treated s = len (filter (fun r => treatment r =? 1)
                                      (filter (decile_is (ds_decile s)) df)) /\
            n_control s = len (filter (fun r => treatment r =? 0)
                                      (filter (decile_is (ds_decile s)) df)) /\
            (n_treated s = 0 \/ n_control s = 0 ->
             treatment_rate s = of_Z 0 /\ control_rate s = of_Z 0 /\
             observed_lift s = of_Z 0 /\ uplift_rate s = of_Z 0))
         (calculate_decile_stats df).
Proof.
  unfold calculate_decile_stats. split.
  - rewrite map_map.
    rewrite (map_ext _ (fun d => d)) by (intros d; apply decile_stats_row_spec).
    rewrite map_id. reflexivity.
  - apply Forall_map, Forall_forall. intros d _.
    destruct (decile_stats_row_spec df d) as (Hd & Hn & Ht & Hc & Hz).
    rewrite Hd. repeat split; tauto.
Qed.

(** ** The profit curve *)

Lemma profit_curve_loop_ok df sel c p :
  forall grid rs pcts ps,
    map (fun pct => calculate_portfolio_profit
                      df sel (fdiv (of_Z pct) (of_Z 100)) c p) grid
      = map Ok rs ->
    profit_curve_loop df sel c p grid pcts ps
      = Ok (pcts ++ grid, ps ++ map profit rs).
Proof.
  induction grid as [|g grid IH]; intros rs pcts ps H.
  - destruct rs; [|discriminate]. simpl. now rewrite !app_nil_r.
  - destruct rs as [|r rs]; [discriminate|]. simpl in H.
    injection H as Hg Hrest. simpl. rewrite Hg. simpl.
    rewrite (IH rs _ _ Hrest). now rewrite <- !app_assoc.
Qed.

(** The scan of [np.argmax], started after the prefix [pre] with running
    maximum [mp] found at [mi], ends on the first maximum of the whole list
    when no element is NaN. *)
Lemma argmax_scan_first_max {FL : FloatLaws F} :
  forall (l pre : list F) (mp : F) (mi : nat),
    Forall (fun x => is_nan x = false) (pre ++ l) ->
    (mi < length pre)%nat ->
    nth mi pre fnan = mp ->
    (forall j, (j < length pre)%nat -> fleb (nth j pre fnan) mp = true) ->
    (forall j, (j < mi)%nat -> fleb mp (nth j pre fnan) = false) ->
    let m := argmax_scan mp mi (length pre) l in
    (m < length (pre ++ l))%nat /\
    (forall j, (j < length (pre ++ l))%nat ->
       fleb (nth j (pre ++ l) fnan) (nth m (pre ++ l) fnan) = true) /\
    (forall j, (j < m)%nat ->
       fleb (nth m (pre ++ l) fnan) (nth j (pre ++ l) fnan) = false).
Proof.
  induction l as [|x l IH]; intros pre mp mi Hnan Hmi Hmp Hmax Hfirst; simpl.
  - rewrite app_nil_r. subst mp. repeat split; assumption.
  - assert (Hx : is_nan x = false).
    { rewrite Forall_forall in Hnan. apply Hnan, in_or_app. right. left.
      reflexivity. }
    assert (Hmpn : is_nan mp = false).
    { rewrite Forall_forall in Hnan. apply Hnan, in_or_app. left.
      subst mp. apply nth_In. exact Hmi. }
    assert (Hlen : length (pre ++ [x]) = S (length pre)).
    { rewrite length_app. simpl. lia. }
    assert (Happ : pre ++ x :: l = (pre ++ [x]) ++ l).
    { rewrite <- app_assoc. reflexivity. }
    assert (Hnth : forall j, (j < length pre)%nat ->
                     nth j (pre ++ [x]) fnan = nth j pre fnan).
    { intros j Hj. apply app_nth1. exact Hj. }
    assert (Hlast : nth (length pre) (pre ++ [x]) fnan = x).
    { rewrite app_nth2 by lia. rewrite Nat.sub_diag. reflexivity. }
    rewrite Happ in Hnan |- *. rewrite <- Hlen.
    destruct (fleb x mp) eqn:E; simpl.
    + apply IH; try assumption.
      * rewrite Hlen. lia.
      * rewrite Hnth by exact Hmi. exact Hmp.
      * intros j Hj. rewrite Hlen in Hj.
        destruct (Nat.eq_dec j (length pre)) as [->|Hne].
        -- rewrite Hlast. exact E.
        -- rewrite Hnth by lia. apply Hmax. lia.
      * intros j Hj. rewrite Hnth by lia. apply Hfirst. exact Hj.
    + rewrite Hx.
      assert (Hmx : fleb mp x = true).
      { destruct (fleb_total mp x Hmpn Hx) as [H|H]; [exact H|congruence]. }
      apply IH; try assumption.
      * rewrite Hlen. lia.
      * intros j Hj. rewrite Hlen in Hj.
        destruct (Nat.eq_dec j (length pre)) as [->|Hne].
        -- rewrite Hlast. destruct (fleb_total x x Hx Hx); assumption.
        -- rewrite Hnth by lia. apply fleb_trans with mp; [|exact Hmx].
           apply Hmax. lia.
      * intros j Hj. rewrite Hnth by lia.
        destruct (fleb x (nth j pre fnan)) eqn:E'; [|reflexivity].
        rewrite <- E. symmetry. apply fleb_trans with (nth j pre fnan);
          [exact E'|]. apply Hmax. lia.
Qed.

Lemma argmax_first_max {FL : FloatLaws F} (l : list F) :
  l <> [] ->
  Forall (fun x => is_nan x = false) l ->
  exists m,
    argmax l = Ok m /\
    (m < length l)%nat /\
    (forall j, (j < length l)%nat ->
       fleb (nth j l fnan) (nth m l fnan) = true) /\
    (forall j, (j < m)%nat -> fleb (nth m l fnan) (nth j l fnan) = false).
Proof.
  intros Hne Hnan. destruct l as [|x l]; [contradiction|].
  assert (Hx : is_nan x = false) by (inversion Hnan; assumption).
  unfold argmax. rewrite Hx. eexists. split; [reflexivity|].
  apply (argmax_scan_first_max l [x] x 0%nat); simpl; try assumption; try lia.
  - reflexivity.
  - intros j Hj. assert (j = 0%nat) as -> by lia.
    destruct (fleb_total x x Hx Hx); assumption.
Qed.

(** C6: when the twenty evaluations of [calculate_portfolio_profit] at the
    fractions 5/100, 10/100, ..., 100/100 return the results [rs] (none with
    a NaN profit), [calculate_profit_curve] returns the percentages
    5, 10, ..., 100 and the profits of [rs], both in increasing-percentage
    order, and its optimum is the grid point [i] whose profit is maximal
    among the twenty and strictly above every earlier one (first occurrence
    on ties). *)
Theorem profit_curve_reports_first_maximum
    {FL : FloatLaws F} df sel c p (n_points : Z) (rs : list (ProfitDict F)) :
  map (fun pct => calculate_portfolio_profit
                    df sel (fdiv (of_Z pct) (of_Z 100)) c p) grid20
    = map Ok rs ->
  Forall (fun r => is_nan (profit r) = false) rs ->
  exists i,
    (i < 20)%nat /\
    calculate_profit_curve df sel c p n_points =
      Ok {| percentages := grid20;
            profits := map profit rs;
            optimal_pct := nth i grid20 0;
            optimal_profit := nth i (map profit rs) fnan |} /\
    (forall j, (j < 20)%nat ->
       fleb (nth j (map profit rs) fnan) (nth i (map profit rs) fnan) = true) /\
    (forall j, (j < i)%nat ->
       fleb (nth i (map profit rs) fnan) (nth j (map profit rs) fnan) = false).
Proof.
  intros Hrs Hnan.
  assert (Hlen : length (map profit rs) = 20%nat).
  { rewrite length_map. apply (f_equal (@length _)) in Hrs.
    rewrite !length_map in Hrs. rewrite <- Hrs. reflexivity. }
  destruct (argmax_first_max (map profit rs)) as (m & Hm & Hlt & Hmax & Hfirst).
  { intros E. rewrite E in Hlen. discriminate. }
  { apply Forall_map. exact Hnan. }
  exists m. rewrite Hlen in Hlt, Hmax.
  split; [exact Hlt|]. split; [|split; assumption].
  unfold calculate_profit_curve.
  change (py_range 5 105 5) with grid20.
  rewrite (profit_curve_loop_ok df sel c p grid20 rs [] [] Hrs).
  simpl app. unfold bind at 1. cbv beta. unfold fst, snd.
  rewrite Hm. reflexivity.
Qed.

End EngineFacts.

(** ** Exact arithmetic satisfies the laws *)

#[export] Instance xfloat_laws : FloatLaws xfloat.
Proof.
  constructor.
  - intros [|a] [|b] Ha Hb; try discriminate. simpl.
    destruct (Qlt_le_dec a b) as [H|H].
    + left. apply Qle_bool_iff, Qlt_le_weak, H.
    + right. apply Qle_bool_iff, H.
  - intros [|a] [|b] [|d]; simpl; try discriminate.
    rewrite !Qle_bool_iff. apply Qle_trans.
  - reflexivity.
  - reflexivity.
Qed.

Lemma xfloat_mul_zero (q : Q) : fmul (of_Z 0) (XFin q) = of_Z 0.
Proof.
  destruct q as [n d]. reflexivity.
Qed.

(** ** Concrete evaluations *)

Lemma portfolio_empty_pool_all_zero_witness :
  (forall r, In r frame4 -> isin (decile r) [5] = false) /\
  calculate_portfolio_profit frame4 [5] (xq 1 2) (xq 1 2) (xq 10 1) =
    Ok {| profit := of_Z 0; revenue := of_Z 0; cost := of_Z 0;
          incremental_conversions := of_Z 0; emails_sent := 0;
          pool_size := Some 0 |}.
Proof.
  assert (H : forall r, In r frame4 -> isin (decile r) [5] = false).
  { intros r [<-|[<-|[<-|[<-|[]]]]]; reflexivity. }
  split; [exact H|].
  apply (portfolio_empty_pool_all_zero frame4 [5] (xq 1 2) (xq 1 2) (xq 10 1) H).
Defined.

(** C3 (failing input): on a frame with a single treated customer and no
    control customer the baseline returns NaN for profit, revenue and
    incremental conversions (the mean of the empty control arm is NaN),
    whereas the portfolio estimator with all ten deciles and fraction 1.0
    returns profit -0.5, revenue 0 and 0 incremental conversions.  Evaluated
    in binary64. *)
Theorem spray_and_pray_differs_without_control :
  let spray :=
    calculate_spray_and_pray frame_treated_only_b64 (b64 1 2) (b64 10 1) in
  is_nan (profit spray) = true /\
  is_nan (revenue spray) = true /\
  is_nan (incremental_conversions spray) = true /\
  cost spray = b64 1 2 /\
  emails_sent spray = 1 /\
  calculate_portfolio_profit frame_treated_only_b64 all_deciles (b64 1 1)
    (b64 1 2) (b64 10 1) =
    Ok {| profit := b64 (-1) 2; revenue := b64 0 1; cost := b64 1 2;
          incremental_conversions := b64 0 1; emails_sent := 1;
          pool_size := Some 1 |}.
Proof. vm_compute. repeat split. Qed.

(** The same evaluation in exact arithmetic. *)
Example exact_baseline_is_nan_without_control :
  calculate_spray_and_pray frame_treated_only (xq 1 2) (xq 10 1) =
    {| profit := XNaN; revenue := XNaN; cost := xq 1 2;
       incremental_conversions := XNaN; emails_sent := 1;
       pool_size := None |} /\
  calculate_portfolio_profit frame_treated_only all_deciles (of_Z 1)
    (xq 1 2) (xq 10 1) =
    Ok {| profit := xq (-1) 2; revenue := of_Z 0; cost := xq 1 2;
          incremental_conversions := of_Z 0; emails_sent := 1;
          pool_size := Some 1 |}.
Proof. split; reflexivity. Qed.

(** C4 (counterexample): with a pool of 4 records and fraction 0.4375 the
    product is 1.75; the code targets [int(1.75) = 1] record, whereas
    [round(1.75) = 2].  Evaluated in binary64. *)
Lemma portfolio_count_is_not_rounded :
  exists r,
    calculate_portfolio_profit frame4_b64 all_deciles (b64 7 16)
      (b64 1 2) (b64 10 1) = Ok r /\
    len (eligible_pool frame4_b64 all_deciles) = 4 /\
    emails_sent r = 1 /\
    spec_targeted_count 4 (7 # 16) = 2.
Proof. eexists. vm_compute. repeat split. Qed.

(** The same evaluation in exact arithmetic. *)
Example exact_portfolio_count_is_not_rounded :
  exists r,
    calculate_portfolio_profit frame4 all_deciles (xq 7 16) (xq 1 2) (xq 10 1)
      = Ok r /\
    emails_sent r = 1.
Proof. eexists. repeat split. Qed.

(** The truncation applies to the binary64 product: [100 * 0.57] is
    56.99999999999999 and [int] gives 56. *)
Example binary64_truncates_the_rounded_product :
  ftrunc (fmul (of_Z 100) (b64 57 100)) = Some 56.
Proof. reflexivity. Qed.

Lemma portfolio_targets_truncated_count_witness :
  eligible_pool frame4 all_deciles <> [] /\
  ftrunc (fmul (of_Z (len (eligible_pool frame4 all_deciles))) (xq 11 16))
    = Some 2 /\
  exists r,
    calculate_portfolio_profit frame4 all_deciles (xq 11 16) (xq 1 2) (xq 10 1)
      = Ok r /\
    emails_sent r = 2 /\
    (0 <= 2 <= len (eligible_pool frame4 all_deciles) ->
     len (targeted_rows (eligible_pool frame4 all_deciles) (emails_sent r))
       = emails_sent r).
Proof.
  assert (Hne : eligible_pool frame4 all_deciles <> []) by discriminate.
  split; [exact Hne|]. split; [reflexivity|].
  exact (portfolio_targets_truncated_count frame4 all_deciles
           (xq 11 16) (xq 1 2) (xq 10 1) 2 Hne eq_refl).
Defined.




Lemma decile_stats_one_row_per_decile_witness :
  map ds_decile (calculate_decile_stats frame4)
    = [1; 2; 3; 4; 5; 6; 7; 8; 9; 10] /\
  map treatment_rate (calculate_decile_stats frame4)
    = repeat (of_Z 0) 10.
Proof.
  split; [|reflexivity].
  exact (proj1 (decile_stats_one_row_per_decile frame4)).
Defined.

(** ** Ranks: [rank(method='first')] is a permutation of 1..n *)

Lemma index_of_map_self (l : list nat) :
  NoDup l -> map (fun i => index_of i l) l = map Some (seq 0 (length l)).
Proof.
  induction 1 as [|j l Hj Hnd IH]; simpl; [reflexivity|].
  rewrite Nat.eqb_refl. f_equal.
  rewrite <- seq_shift, map_map.
  rewrite <- (map_map Some (option_map S)), <- IH, map_map.
  apply map_ext_in. intros i Hi.
  destruct (Nat.eqb i j) eqn:E; [|reflexivity].
  apply Nat.eqb_eq in E. subst i. contradiction.
Qed.

Lemma rank_positions_zseq (n s : nat) :
  map (fun p => Z.of_nat (S p)) (seq s n) = zseq (Z.of_nat s + 1) n.
Proof.
  revert s. induction n as [|n IH]; intros s; simpl; [reflexivity|].
  f_equal; [lia|]. rewrite IH. f_equal. lia.
Qed.

Lemma zseq_length (a : Z) (n : nat) : length (zseq a n) = n.
Proof. revert a. induction n; intros a; simpl; [reflexivity|]. now rewrite IHn. Qed.

Lemma zseq_nth (n : nat) : forall (a : Z) (i : nat),
  (i < n)%nat -> nth i (zseq a n) 0 = a + Z.of_nat i.
Proof.
  induction n as [|n IH]; intros a i Hi; [lia|].
  destruct i as [|i]; simpl; [lia|]. rewrite IH by lia. lia.
Qed.

Lemma zseq_In (n : nat) : forall (a x : Z),
  In x (zseq a n) <-> a <= x < a + Z.of_nat n.
Proof.
  induction n as [|n IH]; intros a x; simpl; [lia|].
  rewrite IH. lia.
Qed.

Lemma dropna_map_Some (l : list Z) : dropna (map Some l) = l.
Proof. induction l; simpl; [reflexivity|]. now f_equal. Qed.

Lemma dropna_perm (l l' : list (option Z)) :
  Permutation l l' -> Permutation (dropna l) (dropna l').
Proof. apply Permutation_flat_map. Qed.

Lemma insert_Z_comm (x y : Z) (l : list Z) :
  insert_by Z.leb x (insert_by Z.leb y l)
  = insert_by Z.leb y (insert_by Z.leb x l).
Proof.
  induction l as [|a l IH]; simpl.
  - destruct (x <=? y) eqn:E1, (y <=? x) eqn:E2; try reflexivity.
    + apply Z.leb_le in E1, E2. assert (x = y) by lia. now subst.
    + apply Z.leb_gt in E1, E2. lia.
  - destruct (y <=? a) eqn:Ey, (x <=? a) eqn:Ex; simpl;
      rewrite ?Ey, ?Ex;
      destruct (x <=? y) eqn:E1, (y <=? x) eqn:E2;
      try reflexivity;
      try (apply Z.leb_le in E1, E2; assert (x = y) by lia; now subst);
      try (rewrite IH; reflexivity);
      repeat match goal with
             | H : (_ <=? _) = true |- _ => apply Z.leb_le in H
             | H : (_ <=? _) = false |- _ => apply Z.leb_gt in H
             end; lia.
Qed.

Lemma sort_by_Z_perm (l l' : list Z) :
  Permutation l l' -> sort_by Z.leb l = sort_by Z.leb l'.
Proof.
  unfold sort_by. induction 1; simpl.
  - reflexivity.
  - now f_equal.
  - apply insert_Z_comm.
  - congruence.
Qed.

Lemma sort_by_zseq (n : nat) : forall a, sort_by Z.leb (zseq a n) = zseq a n.
Proof.
  unfold sort_by. induction n as [|n IH]; intros a; simpl; [reflexivity|].
  rewrite IH. destruct n as [|n]; simpl; [reflexivity|].
  replace (a <=? a + 1) with true by (symmetry; apply Z.leb_le; lia).
  reflexivity.
Qed.

Section RankFacts.

Context {F : Type} {FO : FloatOps F}.

Lemma argsort_perm (xs : list F) :
  Forall (fun x => is_nan x = false) xs ->
  Permutation (argsort xs) (seq 0 (length xs)).
Proof.
  intros Hnan. unfold argsort.
  rewrite filter_all; [apply sort_by_perm|].
  intros i Hi. apply in_seq in Hi. rewrite Forall_forall in Hnan.
  rewrite (Hnan (nth i xs fnan)); [reflexivity|]. apply nth_In. lia.
Qed.

Lemma rank_first_perm (xs : list F) :
  Forall (fun x => is_nan x = false) xs ->
  Permutation (rank_first xs) (map Some (zseq 1 (length xs))).
Proof.
  intros Hnan. pose proof (argsort_perm xs Hnan) as Hperm.
  unfold rank_first.
  set (R := fun i => option_map (fun p => Z.of_nat (S p))
                                (index_of i (argsort xs))).
  eapply perm_trans; [apply Permutation_map, Permutation_sym, Hperm|].
  assert (Hnd : NoDup (argsort xs)).
  { eapply Permutation_NoDup; [apply Permutation_sym, Hperm|apply seq_NoDup]. }
  unfold R. rewrite <- (map_map (fun i => index_of i (argsort xs))
                                (option_map (fun p => Z.of_nat (S p)))).
  rewrite (index_of_map_self _ Hnd), map_map. simpl.
  rewrite (Permutation_length Hperm), length_seq.
  replace (zseq 1 (length xs))
    with (map (fun p => Z.of_nat (S p)) (seq 0 (length xs)))
    by exact (rank_positions_zseq (length xs) 0).
  rewrite map_map. apply Permutation_refl.
Qed.

End RankFacts.

(** ** Quantile edges of the ranks 1..n *)

Lemma quantile_zseq (n : nat) (k : Z) :
  (1 <= n)%nat -> 0 <= k <= 10 ->
  (quantile_linear (zseq 1 n) k 10 == (10 + (Z.of_nat n - 1) * k) # 10)%Q.
Proof.
  intros Hn Hk. unfold quantile_linear, len. rewrite zseq_length.
  set (m := Z.of_nat n - 1). set (X := m * k).
  assert (Hm : 0 <= m) by (unfold m; lia).
  assert (HX : 0 <= X <= 10 * m) by (unfold X; nia).
  rewrite <- Zdiv_Qdiv.
  assert (Hi : 0 <= X / 10 <= m) by (Z.div_mod_to_equations; lia).
  rewrite (zseq_nth n 1 (Z.to_nat (X / 10))) by lia.
  rewrite (zseq_nth n 1 (Z.to_nat (Z.min (X / 10 + 1) m))) by lia.
  rewrite !Z2Nat.id by lia.
  rewrite <- (Qmake_Qdiv X 10).
  destruct (Z_le_gt_dec (X / 10 + 1) m) as [Hle|Hgt].
  - rewrite Z.min_l by lia.
    replace (1 + (X / 10 + 1) - (1 + X / 10)) with 1 by lia.
    cbv [Qeq Qplus Qminus Qmult Qopp inject_Z Qnum Qden]. lia.
  - rewrite Z.min_r by lia.
    assert (HXm : X = 10 * m) by (Z.div_mod_to_equations; lia).
    rewrite HXm.
    replace (10 * m / 10) with m by (Z.div_mod_to_equations; lia).
    replace (1 + m - (1 + m)) with 0 by lia.
    cbv [Qeq Qplus Qminus Qmult Qopp inject_Z Qnum Qden]. lia.
Qed.

Lemma edge_below_rank (n : nat) (k : nat) (r : Z) :
  (1 <= n)%nat -> (k <= 10)%nat ->
  Qltb (quantile_linear (zseq 1 n) (Z.of_nat k) 10) (inject_Z r)
  = ((Z.of_nat n - 1) * Z.of_nat k <? 10 * (r - 1)).
Proof.
  intros Hn Hk. unfold Qltb.
  rewrite (quantile_zseq n (Z.of_nat k) Hn) by lia.
  cbv [Qle_bool inject_Z Qnum Qden].
  destruct ((Z.of_nat n - 1) * Z.of_nat k <? 10 * (r - 1)) eqn:E.
  - apply Z.ltb_lt in E. apply negb_true_iff, Z.leb_gt. lia.
  - apply Z.ltb_ge in E. apply negb_false_iff, Z.leb_le. lia.
Qed.

Lemma lowest_edge_is_rank (n : nat) (r : Z) :
  (1 <= n)%nat ->
  Qeq_bool (inject_Z r) (nth 0 (qcut_bins (zseq 1 n) 10) 0%Q) = (r =? 1).
Proof.
  intros Hn. unfold qcut_bins. simpl nth.
  rewrite (quantile_zseq n 0 Hn) by lia.
  destruct (r =? 1) eqn:E.
  - apply Z.eqb_eq in E. subst r. apply Qeq_bool_iff.
    cbv [Qeq inject_Z Qnum Qden]. lia.
  - apply Z.eqb_neq in E.
    destruct (Qeq_bool (inject_Z r) ((10 + (Z.of_nat n - 1) * 0) # 10)) eqn:E';
      [|reflexivity].
    apply Qeq_bool_iff in E'. cbv [Qeq inject_Z Qnum Qden] in E'. lia.
Qed.

Lemma has_dup_map_inj {A : Type} (f : A -> Q) (l : list A) :
  NoDup l ->
  (forall a b, In a l -> In b l -> (f a == f b)%Q -> a = b) ->
  has_dup (map f l) = false.
Proof.
  induction 1 as [|x l Hx Hnd IH]; intros Hinj; simpl; [reflexivity|].
  apply orb_false_iff. split.
  - destruct (existsb (Qeq_bool (f x)) (map f l)) eqn:E; [|reflexivity].
    apply existsb_exists in E. destruct E as (y & Hy & Hxy).
    apply in_map_iff in Hy. destruct Hy as (b & <- & Hb).
    apply Qeq_bool_iff in Hxy.
    assert (x = b) by (apply Hinj; simpl; auto). subst b. contradiction.
  - apply IH. intros a b Ha Hb. apply Hinj; simpl; auto.
Qed.

Lemma rank_bins_no_dup (n : nat) :
  (2 <= n)%nat -> has_dup (qcut_bins (zseq 1 n) 10) = false.
Proof.
  intros Hn. unfold qcut_bins. apply has_dup_map_inj; [apply seq_NoDup|].
  intros a b Ha Hb. apply in_seq in Ha, Hb. simpl in Ha, Hb.
  rewrite (quantile_zseq n (Z.of_nat a)), (quantile_zseq n (Z.of_nat b))
    by lia.
  cbv [Qeq Qnum Qden]. intros H. nia.
Qed.

(** ** Counting over initial segments *)

Lemma filter_none {A : Type} (g : A -> bool) (l : list A) :
  (forall x, In x l -> g x = false) -> filter g l = [].
Proof.
  induction l as [|x l IH]; intros H; simpl; [reflexivity|].
  rewrite (H x (or_introl eq_refl)). apply IH.
  intros y Hy. apply H. right. exact Hy.
Qed.

Lemma count_interval (P : nat -> bool) (lo hi N : nat) :
  (lo <= hi <= N)%nat ->
  (forall k, (k < N)%nat -> (P k = true <-> (lo <= k < hi)%nat)) ->
  length (filter P (seq 0 N)) = (hi - lo)%nat.
Proof.
  intros Hb HP.
  replace N with (lo + ((hi - lo) + (N - hi)))%nat by lia.
  rewrite !seq_app, !filter_app, !length_app.
  rewrite (filter_none P (seq 0 lo)).
  2:{ intros k Hk. apply in_seq in Hk. destruct (P k) eqn:E; [|reflexivity].
      apply HP in E; lia. }
  rewrite (filter_all P (seq (0 + lo) (hi - lo))).
  2:{ intros k Hk. apply in_seq in Hk. apply HP; lia. }
  rewrite (filter_none P (seq (0 + lo + (hi - lo)) (N - hi))).
  2:{ intros k Hk. apply in_seq in Hk. destruct (P k) eqn:E; [|reflexivity].
      apply HP in E; lia. }
  simpl. rewrite length_seq. lia.
Qed.

(** ** The decile of a rank *)

Lemma rank_decile_char (m r d : Z) :
  1 <= m -> 2 <= r <= m + 1 -> 1 <= d <= 10 ->
  (d - 1) * m < 10 * (r - 1) <= d * m ->
  rank_decile m r = d.
Proof.
  intros Hm Hr Hd Hint. unfold rank_decile.
  replace (r =? 1) with false by (symmetry; apply Z.eqb_neq; lia).
  unfold len.
  rewrite (count_interval _ 0 (Z.to_nat d) 11); [lia|lia|].
  intros k Hk. rewrite Z.ltb_lt. split.
  - intros H. split; [lia|].
    destruct (Z_lt_ge_dec (Z.of_nat k) d) as [Hlt|Hge]; [lia|]. nia.
  - intros [_ H]. assert (Z.of_nat k <= d - 1) by lia. nia.
Qed.

Lemma rank_decile_interval (m r : Z) :
  1 <= m -> 2 <= r <= m + 1 ->
  exists d, 1 <= d <= 10 /\ (d - 1) * m < 10 * (r - 1) <= d * m.
Proof.
  intros Hm Hr.
  assert (H : 10 * (r - 1) <= 1 * m \/
              (1 * m < 10 * (r - 1) <= 2 * m) \/
              (2 * m < 10 * (r - 1) <= 3 * m) \/
              (3 * m < 10 * (r - 1) <= 4 * m) \/
              (4 * m < 10 * (r - 1) <= 5 * m) \/
              (5 * m < 10 * (r - 1) <= 6 * m) \/
              (6 * m < 10 * (r - 1) <= 7 * m) \/
              (7 * m < 10 * (r - 1) <= 8 * m) \/
              (8 * m < 10 * (r - 1) <= 9 * m) \/
              (9 * m < 10 * (r - 1) <= 10 * m)) by lia.
  destruct H as [H|[H|[H|[H|[H|[H|[H|[H|[H|H]]]]]]]]];
    [exists 1|exists 2|exists 3|exists 4|exists 5
    |exists 6|exists 7|exists 8|exists 9|exists 10]; lia.
Qed.

Lemma rank_decile_iff (m r d : Z) :
  1 <= m -> 2 <= r <= m + 1 -> 1 <= d <= 10 ->
  (rank_decile m r = d <-> (d - 1) * m < 10 * (r - 1) <= d * m).
Proof.
  intros Hm Hr Hd. split; [|apply rank_decile_char; assumption].
  intros H. destruct (rank_decile_interval m r Hm Hr) as (d' & Hd' & Hint).
  rewrite (rank_decile_char m r d' Hm Hr Hd' Hint) in H. subst d'. exact Hint.
Qed.

Lemma rank_decile_range (m r : Z) :
  1 <= m -> 1 <= r <= m + 1 -> 1 <= rank_decile m r <= 10.
Proof.
  intros Hm Hr. destruct (Z.eq_dec r 1) as [->|Hne].
  - unfold rank_decile. simpl. lia.
  - destruct (rank_decile_interval m r Hm) as (d & Hd & Hint); [lia|].
    rewrite (rank_decile_char m r d); try assumption; lia.
Qed.

Lemma cut_label_rank (n : nat) (r : Z) :
  (2 <= n)%nat -> 1 <= r <= Z.of_nat n ->
  option_map (fun l => l + 1) (cut_label (qcut_bins (zseq 1 n) 10) (Some r))
  = Some (rank_decile (Z.of_nat n - 1) r).
Proof.
  intros Hn Hr. unfold cut_label.
  rewrite lowest_edge_is_rank by lia.
  assert (Hlen : len (qcut_bins (zseq 1 n) 10) = 11).
  { unfold len, qcut_bins. rewrite length_map, length_seq. reflexivity. }
  assert (Hids : (if r =? 1 then 1
                  else searchsorted_left (qcut_bins (zseq 1 n) 10) (inject_Z r))
                 = rank_decile (Z.of_nat n - 1) r).
  { unfold rank_decile. destruct (r =? 1); [reflexivity|].
    unfold searchsorted_left, qcut_bins, len. f_equal.
    rewrite filter_map_swap, length_map. f_equal.
    apply filter_ext_in. intros k Hk. apply in_seq in Hk. simpl in Hk.
    apply edge_below_rank; lia. }
  rewrite Hids, Hlen.
  pose proof (rank_decile_range (Z.of_nat n - 1) r) as Hrange.
  replace (rank_decile (Z.of_nat n - 1) r =? 0) with false
    by (symmetry; apply Z.eqb_neq; lia).
  replace (rank_decile (Z.of_nat n - 1) r =? 11) with false
    by (symmetry; apply Z.eqb_neq; lia).
  simpl. f_equal. lia.
Qed.

(** ** How many ranks fall in each decile *)

Lemma decile_count_formula (m d : Z) :
  1 <= m -> 1 <= d <= 10 ->
  len (filter (fun r => rank_decile m r =? d) (zseq 1 (Z.to_nat m + 1)))
  = if d =? 1 then m / 10 + 1 else (d * m) / 10 - ((d - 1) * m) / 10.
Proof.
  intros Hm Hd. unfold len.
  replace (zseq 1 (Z.to_nat m + 1))
    with (map (fun p => Z.of_nat (S p)) (seq 0 (Z.to_nat m + 1)))
    by exact (rank_positions_zseq (Z.to_nat m + 1) 0).
  rewrite filter_map_swap, length_map.
  destruct (d =? 1) eqn:E.
  - apply Z.eqb_eq in E. subst d.
    rewrite (count_interval _ 0 (Z.to_nat (m / 10 + 1)) (Z.to_nat m + 1)).
    + assert (0 <= m / 10) by (Z.div_mod_to_equations; lia). lia.
    + assert (0 <= m / 10 <= m) by (Z.div_mod_to_equations; lia). lia.
    + intros k Hk. rewrite Z.eqb_eq.
      destruct k as [|k].
      * assert (0 <= m / 10) by (Z.div_mod_to_equations; lia).
        split; [intros _; lia|intros _; reflexivity].
      * rewrite rank_decile_iff by lia.
        assert (0 <= m / 10) by (Z.div_mod_to_equations; lia).
        split; intros H0; [split; [lia|]|]; Z.div_mod_to_equations; lia.
  - apply Z.eqb_neq in E.
    set (A := (d - 1) * m). set (B := d * m).
    assert (HB : B = A + m) by (unfold A, B; lia).
    assert (HA : m <= A) by (unfold A; nia).
    assert (HB10 : B <= 10 * m) by (unfold B; nia).
    assert (Hdiv : 0 <= A / 10 <= B / 10 /\ B / 10 <= m)
      by (Z.div_mod_to_equations; lia).
    rewrite (count_interval _ (Z.to_nat (A / 10 + 1)) (Z.to_nat (B / 10 + 1))
               (Z.to_nat m + 1)).
    + lia.
    + lia.
    + intros k Hk. rewrite Z.eqb_eq.
      destruct k as [|k].
      * change (rank_decile m (Z.of_nat 1)) with 1. split; intros H0; lia.
      * rewrite rank_decile_iff by lia. fold A. fold B.
        split; intros H0; [split|]; Z.div_mod_to_equations; lia.
Qed.

Lemma decile_count_balanced (m d d' : Z) :
  1 <= m -> 1 <= d <= 10 -> 1 <= d' <= 10 ->
  len (filter (fun r => rank_decile m r =? d) (zseq 1 (Z.to_nat m + 1)))
  <= len (filter (fun r => rank_decile m r =? d') (zseq 1 (Z.to_nat m + 1)))
     + 1.
Proof.
  intros Hm Hd Hd'. rewrite !decile_count_formula by assumption.
  set (A := (d - 1) * m). set (A' := (d' - 1) * m).
  replace (d * m) with (A + m) by (unfold A; lia).
  replace (d' * m) with (A' + m) by (unfold A'; lia).
  assert (0 <= A) by (unfold A; nia).
  assert (0 <= A') by (unfold A'; nia).
  destruct (d =? 1), (d' =? 1); Z.div_mod_to_equations; lia.
Qed.

Lemma decile_count_at_most_one (m d : Z) :
  1 <= m <= 9 -> 1 <= d <= 10 ->
  len (filter (fun r => rank_decile m r =? d) (zseq 1 (Z.to_nat m + 1))) <= 1.
Proof.
  intros Hm Hd. rewrite decile_count_formula by lia.
  set (A := (d - 1) * m).
  replace (d * m) with (A + m) by (unfold A; lia).
  assert (0 <= A) by (unfold A; nia).
  destruct (d =? 1); Z.div_mod_to_equations; lia.
Qed.

Lemma decile_count_positive (m d : Z) :
  9 <= m -> 1 <= d <= 10 ->
  1 <= len (filter (fun r => rank_decile m r =? d) (zseq 1 (Z.to_nat m + 1))).
Proof.
  intros Hm Hd. rewrite decile_count_formula by lia.
  destruct (d =? 1) eqn:E.
  - Z.div_mod_to_equations; lia.
  - apply Z.eqb_neq in E.
    assert (Hcases : d = 2 \/ d = 3 \/ d = 4 \/ d = 5 \/ d = 6 \/ d = 7 \/
                     d = 8 \/ d = 9 \/ d = 10) by lia.
    destruct Hcases as [->|[->|[->|[->|[->|[->|[->|[->| ->]]]]]]]];
      simpl (_ - 1); Z.div_mod_to_equations; lia.
Qed.

(** ** [qcut] on ranks and [load_and_prepare_data] *)

Lemma qcut_unfold (xs : list (option Z)) (q : Z) (s : list Z) :
  sort_by Z.leb (dropna xs) = s -> s <> [] ->
  qcut xs q = if has_dup (qcut_bins s q) then Raise ValueError
              else Ok (map (cut_label (qcut_bins s q)) xs).
Proof.
  intros Hs Hne. unfold qcut. rewrite Hs.
  destruct s; [contradiction|reflexivity].
Qed.

Lemma qcut_ranks (rs : list (option Z)) (n : nat) :
  (2 <= n)%nat ->
  Permutation rs (map Some (zseq 1 n)) ->
  qcut rs 10 = Ok (map (cut_label (qcut_bins (zseq 1 n) 10)) rs).
Proof.
  intros Hn Hperm.
  assert (Hs : sort_by Z.leb (dropna rs) = zseq 1 n).
  { rewrite (sort_by_Z_perm _ _ (dropna_perm _ _ Hperm)).
    rewrite dropna_map_Some. apply sort_by_zseq. }
  rewrite (qcut_unfold rs 10 (zseq 1 n) Hs).
  - rewrite rank_bins_no_dup by exact Hn. reflexivity.
  - destruct n; [lia|discriminate].
Qed.

Lemma qcut_never_insufficient (xs : list (option Z)) (q : Z) :
  qcut xs q <> Raise InsufficientDataError.
Proof.
  unfold qcut. destruct (sort_by Z.leb (dropna xs)); [discriminate|].
  destruct (has_dup _); discriminate.
Qed.

Lemma map_snd_combine_eq {A B : Type} (l : list A) :
  forall l' : list B, length l = length l' -> map snd (combine l l') = l'.
Proof.
  induction l as [|a l IH]; intros [|b l'] H; simpl in *;
    try reflexivity; try discriminate.
  f_equal. apply IH. lia.
Qed.

Lemma filter_length_perm {A : Type} (g : A -> bool) (l l' : list A) :
  Permutation l l' -> length (filter g l) = length (filter g l').
Proof. intros H. apply Permutation_length, filter_perm, H. Qed.

Section LoadFacts.

Context {F : Type} {FO : FloatOps F}.

Lemma rank_first_length (xs : list F) : length (rank_first xs) = length xs.
Proof. unfold rank_first. now rewrite length_map, length_seq. Qed.

(** With at least two rows and no missing score, loading succeeds and the
    decile column is a rearrangement of the deciles of the ranks 1..n. *)
Lemma load_and_prepare_data_labels (raw : list (RawRow F)) :
  (2 <= length raw)%nat ->
  Forall (fun r => is_nan (raw_uplift_score r) = false) raw ->
  exists rows,
    load_and_prepare_data raw = Ok rows /\
    length rows = length raw /\
    Permutation
      (map decile rows)
      (map (fun r => Some (rank_decile (Z.of_nat (length raw) - 1) r))
           (zseq 1 (length raw))).
Proof.
  intros Hn Hnan.
  set (xs := map raw_uplift_score raw).
  assert (Hxs : length xs = length raw) by (unfold xs; apply length_map).
  assert (Hperm : Permutation (rank_first xs) (map Some (zseq 1 (length raw)))).
  { rewrite <- Hxs. apply rank_first_perm. unfold xs.
    apply Forall_map. exact Hnan. }
  unfold load_and_prepare_data. fold xs.
  rewrite (qcut_ranks _ (length raw) Hn Hperm). simpl.
  set (bins := qcut_bins (zseq 1 (length raw)) 10).
  assert (Hlab : length raw = length (map (cut_label bins) (rank_first xs))).
  { rewrite length_map, rank_first_length. symmetry. exact Hxs. }
  eexists. split; [reflexivity|]. split.
  - rewrite length_map, length_combine, <- Hlab. lia.
  - rewrite map_map. simpl.
    rewrite <- (map_map snd (option_map (fun l => l + 1))).
    rewrite (map_snd_combine_eq _ _ Hlab), map_map.
    eapply perm_trans; [apply Permutation_map, Hperm|].
    rewrite map_map.
    rewrite (map_ext_in _
               (fun r => Some (rank_decile (Z.of_nat (length raw) - 1) r))).
    + apply Permutation_refl.
    + intros r Hr. apply zseq_In in Hr. unfold bins.
      apply cut_label_rank; lia.
Qed.

Lemma group_size_of_deciles (rows : list (Row F)) (l : list Z) (g : Z -> Z) (d : Z) :
  Permutation (map decile rows) (map (fun r => Some (g r)) l) ->
  group_size d rows = len (filter (fun r => g r =? d) l).
Proof.
  intros Hperm. unfold group_size, len. f_equal.
  transitivity (length (filter (fun o : option Z =>
                                  match o with
                                  | Some v => v =? d
                                  | None => false
                                  end) (map decile rows))).
  - rewrite filter_map_swap, length_map. reflexivity.
  - rewrite (filter_length_perm _ _ _ Hperm).
    rewrite filter_map_swap, length_map. reflexivity.
Qed.

Lemma deciles_in_range (rows : list (Row F)) (l : list Z) (g : Z -> Z) :
  Permutation (map decile rows) (map (fun r => Some (g r)) l) ->
  (forall r, In r l -> 1 <= g r <= 10) ->
  Forall (fun r => exists d, decile r = Some d /\ 1 <= d <= 10) rows.
Proof.
  intros Hperm Hg. apply Forall_forall. intros r Hr.
  assert (Hin : In (decile r) (map (fun r => Some (g r)) l)).
  { eapply Permutation_in; [exact Hperm|]. apply in_map. exact Hr. }
  apply in_map_iff in Hin. destruct Hin as (x & Hx & Hxl).
  exists (g x). split; [symmetry; exact Hx|]. apply Hg. exact Hxl.
Qed.


(** C2 (amended): on fewer than ten records [load_and_prepare_data] never
    raises [InsufficientDataError].  With at most one record [qcut] raises
    [ValueError] (its bin edges are not unique); with two to nine records
    (and non-NaN scores) loading succeeds, every record gets a decile in
    1..10 and no decile holds more than one record. *)
Theorem load_and_prepare_data_short_input (raw : list (RawRow F)) :
  (length raw < 10)%nat ->
  load_and_prepare_data raw <> Raise InsufficientDataError /\
  ((length raw <= 1)%nat -> load_and_prepare_data raw = Raise ValueError) /\
  ((2 <= length raw)%nat ->
   Forall (fun r => is_nan (raw_uplift_score r) = false) raw ->
   exists rows,
     load_and_prepare_data raw = Ok rows /\
     length rows = length raw /\
     Forall (fun r => exists d, decile r = Some d /\ 1 <= d <= 10) rows /\
     (forall d, 1 <= d <= 10 -> group_size d rows <= 1)).
Proof.
  intros Hn. split; [|split].
  - unfold load_and_prepare_data.
    pose proof (qcut_never_insufficient
                  (rank_first (map raw_uplift_score raw)) 10) as H.
    destruct (qcut _ 10); [discriminate|].
    simpl. intros E. apply H. injection E as ->. reflexivity.
  - intros H1. destruct raw as [|r [|r' raw]]; simpl in H1; try lia.
    + reflexivity.
    + unfold load_and_prepare_data, rank_first, argsort. simpl.
      destruct (is_nan (raw_uplift_score r)); reflexivity.
  - intros H2 Hnan.
    destruct (load_and_prepare_data_labels raw H2 Hnan)
      as (rows & Hok & Hlen & Hperm).
    set (m := Z.of_nat (length raw) - 1) in *.
    assert (Hm : length raw = (Z.to_nat m + 1)%nat) by (unfold m; lia).
    exists rows. split; [exact Hok|]. split; [exact Hlen|]. split.
    + apply (deciles_in_range rows _ _ Hperm).
      intros r Hr. apply zseq_In in Hr. apply rank_decile_range; unfold m; lia.
    + intros d Hd. rewrite (group_size_of_deciles rows _ _ d Hperm), Hm.
      apply decile_count_at_most_one; unfold m; lia.
Qed.

End LoadFacts.

(** ** Totality of the sweep in exact arithmetic *)

Lemma xfloat_mean_finite (ys : list Z) :
  ys <> [] -> exists q, mean (F := xfloat) ys = XFin q.
Proof.
  intros Hne. destruct ys as [|y ys]; [contradiction|].
  unfold mean. cbn [fdiv of_Z xfloat_ops xf_div].
  assert (E : Qeq_bool (inject_Z (len (y :: ys))) 0 = false).
  { destruct (Qeq_bool (inject_Z (len (y :: ys))) 0) eqn:E; [|reflexivity].
    apply Qeq_bool_iff in E. cbv [Qeq inject_Z Qnum Qden] in E.
    unfold len in E. simpl length in E. lia. }
  rewrite E. eexists. reflexivity.
Qed.

(** For a fraction and cost parameters that are numbers (not NaN), the
    portfolio estimator returns, and its profit is a number. *)
Lemma xfloat_portfolio_total (df : list (Row xfloat)) (sel : list Z) (q c p : Q) :
  exists r,
    calculate_portfolio_profit df sel (XFin q) (XFin c) (XFin p) = Ok r /\
    is_nan (profit r) = false.
Proof.
  unfold calculate_portfolio_profit.
  destruct (len (eligible_pool df sel) =? 0).
  - eexists. split; reflexivity.
  - unfold py_int. cbn [ftrunc fmul of_Z xfloat_ops xf_mul xf_trunc bind].
    set (n := if _ =? 0 then 1 else _).
    set (T := filter (fun r => treatment r =? 1) _).
    set (C := filter (fun r => treatment r =? 0) _).
    eexists. split; [reflexivity|]. cbn [profit].
    destruct ((0 <? len T) && (0 <? len C)) eqn:E.
    + apply andb_true_iff in E. destruct E as [ET EC].
      apply Z.ltb_lt in ET, EC.
      destruct (xfloat_mean_finite (map y_true T)) as (a & ->).
      { destruct T; [unfold len in ET; simpl in ET; lia|discriminate]. }
      destruct (xfloat_mean_finite (map y_true C)) as (b & ->).
      { destruct C; [unfold len in EC; simpl in EC; lia|discriminate]. }
      reflexivity.
    + reflexivity.
Qed.

Lemma map_results_exist {A B : Type} (g : A -> result B) (P : B -> Prop) :
  (forall x, exists r, g x = Ok r /\ P r) ->
  forall l, exists rs, map g l = map Ok rs /\ Forall P rs.
Proof.
  intros Hg. induction l as [|x l (rs & Hrs & HP)].
  - exists []. split; [reflexivity|constructor].
  - destruct (Hg x) as (r & Hr & Hp). exists (r :: rs). simpl.
    rewrite Hr, Hrs. split; [reflexivity|]. constructor; assumption.
Qed.

(** In exact arithmetic the twenty evaluations of the sweep always return
    and none of their profits is NaN: the hypotheses of the statement on the
    optimum are met by every frame and every pair of numeric costs. *)
Lemma xfloat_curve_evaluations_defined
    (df : list (Row xfloat)) (sel : list Z) (c p : Q) :
  exists rs,
    map (fun pct => calculate_portfolio_profit
                      df sel (fdiv (of_Z pct) (of_Z 100)) (XFin c) (XFin p))
        grid20 = map Ok rs /\
    Forall (fun r => is_nan (profit r) = false) rs.
Proof.
  apply (map_results_exist
           (fun pct => calculate_portfolio_profit
                         df sel (fdiv (of_Z pct) (of_Z 100)) (XFin c) (XFin p))).
  intros pct. apply xfloat_portfolio_total.
Qed.

(** In exact arithmetic and for a fraction in (0,1], [int(pool_size * f)] is
    the floor of the product and lies between 0 and the pool size. *)
Lemma xfloat_truncation_is_floor (n : Z) (q : Q) :
  0 <= n -> (0 < q)%Q -> (q <= 1)%Q ->
  ftrunc (fmul (of_Z n) (XFin q)) = Some (Qfloor (inject_Z n * q)) /\
  0 <= Qfloor (inject_Z n * q) <= n.
Proof.
  intros Hn Hq0 Hq1.
  assert (Hx0 : (0 <= inject_Z n * q)%Q).
  { apply Qmult_le_0_compat; [|apply Qlt_le_weak, Hq0].
    change 0%Q with (inject_Z 0). rewrite <- Zle_Qle. exact Hn. }
  assert (Hx1 : (inject_Z n * q <= inject_Z n)%Q).
  { rewrite (Qmult_comm (inject_Z n) q).
    rewrite <- (Qmult_1_l (inject_Z n)) at 2.
    apply Qmult_le_compat_r; [exact Hq1|].
    change 0%Q with (inject_Z 0). rewrite <- Zle_Qle. exact Hn. }
  split.
  - cbn [ftrunc fmul of_Z xfloat_ops xf_mul xf_trunc]. f_equal.
    set (x := (inject_Z n * q)%Q) in *.
    assert (Hred : (Qred x == x)%Q) by apply Qred_correct.
    rewrite <- (Qfloor_comp _ _ Hred).
    assert (Hnum : 0 <= Qnum (Qred x)).
    { assert (H : (0 <= Qred x)%Q) by (rewrite Hred; exact Hx0).
      unfold Qle in H. change (Qnum 0) with 0 in H.
      change (QDen 0) with 1 in H. lia. }
    destruct (Qred x) as [a b]. simpl in *.
    apply Z.quot_div_nonneg; lia.
  - split.
    + rewrite <- (Qfloor_Z 0). apply Qfloor_resp_le. exact Hx0.
    + rewrite <- (Qfloor_Z n) at 2. apply Qfloor_resp_le. exact Hx1.
Qed.

(** ** Concrete evaluations of the loader and of the sweep *)


(** C2 (counterexample): five records, three of them with the same score,
    are loaded without any exception; they receive the deciles 3, 5, 1, 10
    and 8.  Evaluated in binary64. *)
Lemma load_and_prepare_data_accepts_five_records :
  (length raw5_b64 < 10)%nat /\
  exists rows,
    load_and_prepare_data raw5_b64 = Ok rows /\
    map decile rows = [Some 3; Some 5; Some 1; Some 10; Some 8].
Proof. split; [simpl; lia|]. eexists. vm_compute. split; reflexivity. Qed.

Lemma load_and_prepare_data_short_input_witness :
  (length raw5 < 10)%nat /\
  (2 <= length raw5)%nat /\
  Forall (fun r => is_nan (raw_uplift_score r) = false) raw5 /\
  load_and_prepare_data raw5 <> Raise InsufficientDataError /\
  exists rows,
    load_and_prepare_data raw5 = Ok rows /\
    length rows = length raw5 /\
    Forall (fun r => exists d, decile r = Some d /\ 1 <= d <= 10) rows /\
    (forall d, 1 <= d <= 10 -> group_size d rows <= 1).
Proof.
  assert (Hn : (length raw5 < 10)%nat) by (simpl; lia).
  assert (H2 : (2 <= length raw5)%nat) by (simpl; lia).
  assert (Hnan : Forall (fun r => is_nan (raw_uplift_score r) = false) raw5)
    by (repeat constructor).
  split; [exact Hn|]. split; [exact H2|]. split; [exact Hnan|].
  destruct (load_and_prepare_data_short_input raw5 Hn) as (Hno & _ & Hok).
  split; [exact Hno|]. exact (Hok H2 Hnan).
Defined.

Lemma profit_curve_reports_first_maximum_witness :
  map (fun pct => calculate_portfolio_profit frame4 all_deciles
                    (fdiv (of_Z pct) (of_Z 100)) (xq 1 2) (xq 10 1)) grid20
    = map Ok frame4_curve_results /\
  Forall (fun r => is_nan (profit r) = false) frame4_curve_results /\
  exists i,
    (i < 20)%nat /\
    calculate_profit_curve frame4 all_deciles (xq 1 2) (xq 10 1) 20 =
      Ok {| percentages := grid20;
            profits := map profit frame4_curve_results;
            optimal_pct := nth i grid20 0;
            optimal_profit := nth i (map profit frame4_curve_results) fnan |} /\
    (forall j, (j < 20)%nat ->
       fleb (nth j (map profit frame4_curve_results) fnan)
            (nth i (map profit frame4_curve_results) fnan) = true) /\
    (forall j, (j < i)%nat ->
       fleb (nth i (map profit frame4_curve_results) fnan)
            (nth j (map profit frame4_curve_results) fnan) = false).
Proof.
  assert (Hrs : map (fun pct => calculate_portfolio_profit frame4 all_deciles
                       (fdiv (of_Z pct) (of_Z 100)) (xq 1 2) (xq 10 1)) grid20
                = map Ok frame4_curve_results) by reflexivity.
  assert (Hnan : Forall (fun r => is_nan (profit r) = false)
                        frame4_curve_results) by (repeat constructor).
  split; [exact Hrs|]. split; [exact Hnan|].
  exact (profit_curve_reports_first_maximum frame4 all_deciles
           (xq 1 2) (xq 10 1) 20 frame4_curve_results Hrs Hnan).
Defined.

(** The sweep on [frame4]: the optimum is the first of the five grid points
    (75, ..., 95) that reach the maximal profit 27/2. *)
Example frame4_curve_optimum :
  exists curve,
    calculate_profit_curve frame4 all_deciles (xq 1 2) (xq 10 1) 20 = Ok curve /\
    optimal_pct curve = 75 /\ optimal_profit curve = xq 27 2.
Proof. eexists. repeat split. Qed.

(** ** Further evaluations in binary64 *)

(** The two computational laws of [FloatLaws], checked on binary64. *)
Example binary64_zero_laws :
  fsub (of_Z 0) (of_Z 0) = b64_of_Z 0 /\
  fmul (of_Z 0) (of_Z 100) = b64_of_Z 0.
Proof. split; reflexivity. Qed.

(** Twelve records with one and the same score: ten non-empty deciles of
    sizes 2, 1, ..., 1, 2. *)
Example binary64_twelve_tied_records :
  exists rows,
    load_and_prepare_data raw12_b64 = Ok rows /\
    map decile rows =
      [Some 1; Some 1; Some 2; Some 3; Some 4; Some 5;
       Some 6; Some 7; Some 8; Some 9; Some 10; Some 10].
Proof. eexists. vm_compute. split; reflexivity. Qed.

(** The sweep on [frame4_b64] reports 75 percent and the profit 13.5. *)
Example binary64_curve_optimum :
  exists curve,
    calculate_profit_curve frame4_b64 all_deciles (b64 1 2) (b64 10 1) 20
      = Ok curve /\
    percentages curve = grid20 /\
    optimal_pct curve = 75 /\
    optimal_profit curve = b64 27 2.
Proof. eexists. vm_compute. repeat split. Qed.

(** * Further properties of the engine *)

Section PortfolioFacts.

Context {F : Type} {FO : FloatOps F}.

Implicit Types (df pool : list (Row F)) (sel : list Z) (f c p : F).

Lemma isin_same_members (d : option Z) sel sel' :
  (forall v, In v sel <-> In v sel') -> isin d sel = isin d sel'.
Proof.
  intros H. destruct d as [v|]; [|reflexivity]. simpl.
  destruct (existsb (Z.eqb v) sel) eqn:E, (existsb (Z.eqb v) sel') eqn:E';
    try reflexivity.
  - apply existsb_exists in E. destruct E as (x & Hx & Hvx).
    apply Z.eqb_eq in Hvx. subst x. apply H in Hx.
    assert (Hex : existsb (Z.eqb v) sel' = true).
    { apply existsb_exists. exists v. split; [exact Hx|apply Z.eqb_refl]. }
    congruence.
  - apply existsb_exists in E'. destruct E' as (x & Hx & Hvx).
    apply Z.eqb_eq in Hvx. subst x. apply H in Hx.
    assert (Hex : existsb (Z.eqb v) sel = true).
    { apply existsb_exists. exists v. split; [exact Hx|apply Z.eqb_refl]. }
    congruence.
Qed.

Lemma eligible_pool_same_members df sel sel' :
  (forall v, In v sel <-> In v sel') ->
  eligible_pool df sel = eligible_pool df sel'.
Proof.
  intros H. unfold eligible_pool. apply filter_ext.
  intros r. apply isin_same_members, H.
Qed.

Lemma profit_curve_loop_same_pool df sel sel' c p :
  eligible_pool df sel = eligible_pool df sel' ->
  forall grid pcts ps,
    profit_curve_loop df sel c p grid pcts ps
    = profit_curve_loop df sel' c p grid pcts ps.
Proof.
  intros H. induction grid as [|g grid IH]; intros pcts ps; simpl.
  - reflexivity.
  - unfold calculate_portfolio_profit. rewrite H.
    destruct (len (eligible_pool df sel') =? 0); simpl; [apply IH|].
    destruct (py_int _); simpl; [apply IH|reflexivity].
Qed.

(** The list of selected deciles is used as a set: two lists with the same
    members (whatever their order and repetitions) give the same portfolio
    result and the same profit curve. *)
Theorem portfolio_depends_on_selected_set df sel sel' f c p :
  (forall v, In v sel <-> In v sel') ->
  calculate_portfolio_profit df sel f c p
    = calculate_portfolio_profit df sel' f c p /\
  forall n_points,
    calculate_profit_curve df sel c p n_points
    = calculate_profit_curve df sel' c p n_points.
Proof.
  intros H. pose proof (eligible_pool_same_members df sel sel' H) as Hpool.
  split.
  - unfold calculate_portfolio_profit. rewrite Hpool. reflexivity.
  - intros n_points. unfold calculate_profit_curve.
    rewrite (profit_curve_loop_same_pool df sel sel' c p Hpool). reflexivity.
Qed.

End PortfolioFacts.

Lemma portfolio_depends_on_selected_set_witness :
  (forall v, In v [3; 1; 3; 10] <-> In v [1; 3; 10]) /\
  calculate_portfolio_profit frame4_b64 [3; 1; 3; 10] (b64 1 2) (b64 1 2)
    (b64 10 1)
  = calculate_portfolio_profit frame4_b64 [1; 3; 10] (b64 1 2) (b64 1 2)
      (b64 10 1).
Proof.
  assert (H : forall v, In v [3; 1; 3; 10] <-> In v [1; 3; 10])
    by (intros v; simpl; tauto).
  split; [exact H|].
  exact (proj1 (portfolio_depends_on_selected_set frame4_b64 _ _
                  (b64 1 2) (b64 1 2) (b64 10 1) H)).
Defined.

Section TargetingFacts.

Context {F : Type} {FO : FloatOps F}.

Implicit Types (df pool : list (Row F)) (sel : list Z) (f c p : F).

Lemma head_length_general {A : Type} (n : Z) (l : list A) :
  len (head n l) = if 0 <=? n then Z.min n (len l) else Z.max 0 (len l + n).
Proof.
  unfold head, len. destruct (0 <=? n) eqn:E; rewrite length_firstn.
  - apply Z.leb_le in E. lia.
  - apply Z.leb_gt in E. lia.
Qed.

Lemma In_head {A : Type} (n : Z) (l : list A) (x : A) :
  In x (head n l) -> In x l.
Proof.
  unfold head. destruct (0 <=? n); intros H.
  - rewrite <- (firstn_skipn (Z.to_nat n) l). apply in_or_app. left. exact H.
  - rewrite <- (firstn_skipn (length l - Z.to_nat (- n)) l).
    apply in_or_app. left. exact H.
Qed.

Lemma In_targeted_rows df sel (n : Z) (x : Row F) :
  In x (targeted_rows (eligible_pool df sel) n) -> In x df.
Proof.
  unfold targeted_rows, eligible_pool. intros H. apply In_head in H.
  apply (Permutation_in _ (sort_values_desc_perm _)) in H.
  apply filter_In in H. tauto.
Qed.

(** The number of rows actually targeted is [min(n_target, pool_size)] (and
    [max(0, pool_size + n_target)] for a negative count), while [emails_sent]
    and the cost are computed from [n_target] itself: for a fraction above 1
    the result reports, and charges for, more emails than the pool has
    customers. *)
Theorem portfolio_targeted_rows_count df sel f c p k :
  eligible_pool df sel <> [] ->
  ftrunc (fmul (of_Z (len (eligible_pool df sel))) f) = Some k ->
  exists r,
    calculate_portfolio_profit df sel f c p = Ok r /\
    len (targeted_rows (eligible_pool df sel) (emails_sent r))
      = (if 0 <=? emails_sent r
         then Z.min (emails_sent r) (len (eligible_pool df sel))
         else Z.max 0 (len (eligible_pool df sel) + emails_sent r)) /\
    (len (eligible_pool df sel) < k ->
     emails_sent r = k /\
     cost r = fmul (of_Z k) c /\
     len (targeted_rows (eligible_pool df sel) (emails_sent r))
       = len (eligible_pool df sel)).
Proof.
  intros Hne Hk.
  destruct (portfolio_nonempty_unfold df sel f c p k Hne Hk)
    as (r & Hr & Hn & _ & Hcost & _).
  assert (Hlen : len (sort_values_desc (eligible_pool df sel))
                 = len (eligible_pool df sel))
    by (unfold len; now rewrite sort_values_desc_length).
  assert (Hcount : len (targeted_rows (eligible_pool df sel) (emails_sent r))
      = (if 0 <=? emails_sent r
         then Z.min (emails_sent r) (len (eligible_pool df sel))
         else Z.max 0 (len (eligible_pool df sel) + emails_sent r))).
  { unfold targeted_rows. rewrite head_length_general, Hlen. reflexivity. }
  exists r. split; [exact Hr|]. split; [exact Hcount|].
  intros Hbig. pose proof (len_nonneg (eligible_pool df sel)) as H0.
  assert (Hk0 : (k =? 0) = false) by (apply Z.eqb_neq; lia).
  rewrite Hk0 in Hn. split; [exact Hn|]. split.
  - rewrite Hcost, Hn. reflexivity.
  - rewrite Hcount, Hn.
    replace (0 <=? k) with true by (symmetry; apply Z.leb_le; lia). lia.
Qed.

(** [int()] fails on a product that is NaN or infinite: with a non-empty
    pool the function then raises [ValueError], respectively
    [OverflowError], instead of returning a result. *)
Theorem portfolio_raises_when_int_fails df sel f c p :
  eligible_pool df sel <> [] ->
  ftrunc (fmul (of_Z (len (eligible_pool df sel))) f) = None ->
  calculate_portfolio_profit df sel f c p =
    Raise (if is_nan (fmul (of_Z (len (eligible_pool df sel))) f)
           then ValueError else OverflowError).
Proof.
  intros Hne Hk. unfold calculate_portfolio_profit.
  destruct (len (eligible_pool df sel) =? 0) eqn:E.
  - apply Z.eqb_eq, len_nil_iff in E. contradiction.
  - unfold py_int. rewrite Hk. reflexivity.
Qed.

(** On a frame without control customers, or without treated customers, no
    uplift can be measured: with a non-empty pool every result of the
    portfolio estimator has 0 incremental conversions, revenue
    [0 * profit_per_conversion] and a profit that is this revenue minus the
    cost of the emails. *)
Theorem portfolio_without_an_arm_has_no_uplift df sel f c p r :
  (forall x, In x df -> treatment x <> 0) \/
  (forall x, In x df -> treatment x <> 1) ->
  eligible_pool df sel <> [] ->
  calculate_portfolio_profit df sel f c p = Ok r ->
  incremental_conversions r = of_Z 0 /\
  revenue r = fmul (of_Z 0) p /\
  profit r = fsub (fmul (of_Z 0) p) (fmul (of_Z (emails_sent r)) c).
Proof.
  intros Harm Hne Hr. unfold calculate_portfolio_profit in Hr.
  destruct (len (eligible_pool df sel) =? 0) eqn:E.
  { apply Z.eqb_eq, len_nil_iff in E. contradiction. }
  unfold py_int in Hr.
  destruct (ftrunc (fmul (of_Z (len (eligible_pool df sel))) f)) as [k|];
    simpl in Hr; [|discriminate].
  set (n := if k =? 0 then 1 else k) in Hr.
  set (T := filter (fun x => treatment x =? 1)
                   (targeted_rows (eligible_pool df sel) n)) in Hr.
  set (C := filter (fun x => treatment x =? 0)
                   (targeted_rows (eligible_pool df sel) n)) in Hr.
  assert (Hcond : (0 <? len T) && (0 <? len C) = false).
  { destruct Harm as [Hno|Hno].
    - assert (HC : C = []).
      { unfold C. apply filter_none. intros x Hx.
        apply In_targeted_rows in Hx. apply Z.eqb_neq, Hno, Hx. }
      rewrite HC. apply andb_false_r.
    - assert (HT : T = []).
      { unfold T. apply filter_none. intros x Hx.
        apply In_targeted_rows in Hx. apply Z.eqb_neq, Hno, Hx. }
      rewrite HT. reflexivity. }
  rewrite Hcond in Hr. injection Hr as <-. simpl. repeat split.
Qed.

End TargetingFacts.

Lemma portfolio_targeted_rows_count_witness :
  eligible_pool frame4_b64 all_deciles <> [] /\
  ftrunc (fmul (of_Z (len (eligible_pool frame4_b64 all_deciles))) (b64 2 1))
    = Some 8 /\
  exists r,
    calculate_portfolio_profit frame4_b64 all_deciles (b64 2 1) (b64 1 2)
      (b64 10 1) = Ok r /\
    emails_sent r = 8 /\
    cost r = b64 4 1 /\
    len (targeted_rows (eligible_pool frame4_b64 all_deciles) (emails_sent r))
      = 4.
Proof.
  assert (Hne : eligible_pool frame4_b64 all_deciles <> []) by discriminate.
  assert (Hk : ftrunc (fmul (of_Z (len (eligible_pool frame4_b64 all_deciles)))
                            (b64 2 1)) = Some 8) by reflexivity.
  split; [exact Hne|]. split; [exact Hk|].
  destruct (portfolio_targeted_rows_count frame4_b64 all_deciles
              (b64 2 1) (b64 1 2) (b64 10 1) 8 Hne Hk)
    as (r & Hr & _ & Hbig).
  exists r. split; [exact Hr|].
  destruct (Hbig ltac:(vm_compute; reflexivity)) as (Hn & Hc & Hl).
  split; [exact Hn|]. split; [rewrite Hc; vm_compute; reflexivity|].
  rewrite Hl. reflexivity.
Defined.

Lemma portfolio_raises_when_int_fails_witness :
  eligible_pool frame4_b64 all_deciles <> [] /\
  ftrunc (fmul (of_Z (len (eligible_pool frame4_b64 all_deciles)))
               PrimFloat.nan) = None /\
  calculate_portfolio_profit frame4_b64 all_deciles PrimFloat.nan
    (b64 1 2) (b64 10 1) = Raise ValueError.
Proof.
  assert (Hne : eligible_pool frame4_b64 all_deciles <> []) by discriminate.
  assert (Hk : ftrunc (fmul (of_Z (len (eligible_pool frame4_b64 all_deciles)))
                            PrimFloat.nan) = None) by reflexivity.
  split; [exact Hne|]. split; [exact Hk|].
  exact (portfolio_raises_when_int_fails frame4_b64 all_deciles PrimFloat.nan
           (b64 1 2) (b64 10 1) Hne Hk).
Defined.

(** An infinite fraction raises [OverflowError]. *)
Example binary64_infinite_fraction_overflows :
  calculate_portfolio_profit frame4_b64 all_deciles PrimFloat.infinity
    (b64 1 2) (b64 10 1) = Raise OverflowError.
Proof. reflexivity. Qed.

Lemma portfolio_without_an_arm_has_no_uplift_witness :
  (forall x, In x frame_treated_only_b64 -> treatment x <> 0) /\
  eligible_pool frame_treated_only_b64 all_deciles <> [] /\
  exists r,
    calculate_portfolio_profit frame_treated_only_b64 all_deciles (b64 1 1)
      (b64 1 2) (b64 10 1) = Ok r /\
    incremental_conversions r = of_Z 0 /\
    revenue r = fmul (of_Z 0) (b64 10 1) /\
    profit r = fsub (fmul (of_Z 0) (b64 10 1))
                    (fmul (of_Z (emails_sent r)) (b64 1 2)).
Proof.
  assert (Harm : forall x, In x frame_treated_only_b64 -> treatment x <> 0).
  { intros x [<-|[]]. discriminate. }
  assert (Hne : eligible_pool frame_treated_only_b64 all_deciles <> [])
    by discriminate.
  split; [exact Harm|]. split; [exact Hne|].
  eexists. split; [reflexivity|].
  exact (portfolio_without_an_arm_has_no_uplift frame_treated_only_b64
           all_deciles (b64 1 1) (b64 1 2) (b64 10 1) _
           (or_introl Harm) Hne eq_refl).
Defined.

(** ** Decile statistics as a partition of the frame *)

Lemma filter_disjoint_or_length {A : Type} (p q : A -> bool) (l : list A) :
  (forall x, p x && q x = false) ->
  length (filter (fun x => p x || q x) l)
  = (length (filter p l) + length (filter q l))%nat.
Proof.
  intros Hd. induction l as [|x l IH]; simpl; [reflexivity|].
  specialize (Hd x). destruct (p x), (q x); simpl in *; try discriminate; lia.
Qed.

Lemma filter_disjoint_length_le {A : Type} (p q : A -> bool) (l : list A) :
  (forall x, p x && q x = false) ->
  (length (filter p l) + length (filter q l) <= length l)%nat.
Proof.
  intros Hd. rewrite <- (filter_disjoint_or_length p q l Hd).
  apply filter_length_le.
Qed.

Lemma sum_map_filter {A : Type} (h : A -> Z) (g : A -> bool) (l : list A) :
  fold_right Z.add 0 (map h (filter g l))
  = fold_right Z.add 0 (map (fun x => if g x then h x else 0) l).
Proof.
  induction l as [|x l IH]; simpl; [reflexivity|].
  destruct (g x); simpl; lia.
Qed.

Section DecileStatsFacts.

Context {F : Type} {FO : FloatOps F}.

Implicit Types (df : list (Row F)) (sel : list Z).

Lemma decile_stats_row_counts df d :
  ds_decile (decile_stats_row df d) = d /\
  n_customers (decile_stats_row df d) = group_size d df /\
  n_treated (decile_stats_row df d)
    = len (filter (fun r => treatment r =? 1) (filter (decile_is d) df)) /\
  n_control (decile_stats_row df d)
    = len (filter (fun r => treatment r =? 0) (filter (decile_is d) df)).
Proof.
  unfold decile_stats_row, group_size.
  destruct ((0 <? _) && (0 <? _)); simpl; repeat split.
Qed.

(** Rows whose decile lies in the list [L] and satisfies [g], counted
    decile by decile. *)
Lemma group_sizes_sum df (g : Z -> bool) (L : list Z) :
  NoDup L ->
  fold_right Z.add 0 (map (fun d => if g d then group_size d df else 0) L)
  = len (filter (fun r => match decile r with
                          | Some v => existsb (Z.eqb v) L && g v
                          | None => false
                          end) df).
Proof.
  induction 1 as [|d L Hd Hnd IH]; simpl.
  - unfold len. rewrite filter_none; [reflexivity|].
    intros r _. destruct (decile r); reflexivity.
  - rewrite IH. clear IH.
    set (pd := fun r : Row F => match decile r with
                                | Some v => (v =? d) && g v
                                | None => false
                                end).
    set (qL := fun r : Row F => match decile r with
                                | Some v => existsb (Z.eqb v) L && g v
                                | None => false
                                end).
    assert (Hsplit : forall r,
              match decile r with
              | Some v => ((v =? d) || existsb (Z.eqb v) L) && g v
              | None => false
              end = pd r || qL r).
    { intros r. unfold pd, qL. destruct (decile r) as [v|]; [|reflexivity].
      destruct (v =? d), (existsb (Z.eqb v) L), (g v); reflexivity. }
    rewrite (filter_ext _ _ Hsplit).
    unfold len. rewrite filter_disjoint_or_length.
    + rewrite Nat2Z.inj_add. f_equal.
      destruct (g d) eqn:Eg.
      * unfold group_size, len. f_equal. f_equal. apply filter_ext.
        intros r. unfold decile_is, pd. destruct (decile r) as [v|]; [|reflexivity].
        destruct (v =? d) eqn:E; [|reflexivity].
        apply Z.eqb_eq in E. subst v. now rewrite Eg.
      * rewrite filter_none; [reflexivity|].
        intros r _. unfold pd. destruct (decile r) as [v|]; [|reflexivity].
        destruct (v =? d) eqn:E; [|reflexivity].
        apply Z.eqb_eq in E. subst v. now rewrite Eg.
    + intros r. unfold pd, qL. destruct (decile r) as [v|]; [|reflexivity].
      destruct (v =? d) eqn:E; [|reflexivity].
      apply Z.eqb_eq in E. subst v.
      destruct (existsb (Z.eqb d) L) eqn:Ex; [|destruct (g d); reflexivity].
      apply existsb_exists in Ex. destruct Ex as (x & Hx & Hdx).
      apply Z.eqb_eq in Hdx. subst x. contradiction.
Qed.

Lemma all_deciles_NoDup : NoDup all_deciles.
Proof.
  change all_deciles with [1; 2; 3; 4; 5; 6; 7; 8; 9; 10].
  repeat (constructor; [simpl; intros H; repeat destruct H as [H|H];
                        try discriminate; try contradiction|]).
  constructor.
Qed.

Lemma existsb_all_deciles (v : Z) :
  existsb (Z.eqb v) all_deciles = (1 <=? v) && (v <=? 10).
Proof.
  change all_deciles with [1; 2; 3; 4; 5; 6; 7; 8; 9; 10].
  destruct ((1 <=? v) && (v <=? 10)) eqn:E.
  - apply andb_true_iff in E. destruct E as [E1 E2].
    apply Z.leb_le in E1, E2. apply existsb_exists. exists v.
    split; [simpl; lia|apply Z.eqb_refl].
  - destruct (existsb (Z.eqb v) [1; 2; 3; 4; 5; 6; 7; 8; 9; 10]) eqn:Ex;
      [|reflexivity].
    apply existsb_exists in Ex. destruct Ex as (x & Hx & Hvx).
    apply Z.eqb_eq in Hvx. subst x.
    apply andb_false_iff in E. rewrite !Z.leb_gt in E. simpl in Hx. lia.
Qed.

(** The ten rows of [calculate_decile_stats] partition the part of the frame
    that carries a decile 1..10: their customer counts add up to the number
    of such records (every record of a frame labelled 1..10), and in each
    row treated plus control customers never exceed the customers, with
    equality when every treatment flag of the frame is 0 or 1. *)
Theorem decile_stats_partition df :
  fold_right Z.add 0 (map n_customers (calculate_decile_stats df))
    = len (filter (fun r => match decile r with
                            | Some v => (1 <=? v) && (v <=? 10)
                            | None => false
                            end) df) /\
  Forall (fun s => n_treated s + n_control s <= n_customers s)
         (calculate_decile_stats df) /\
  ((forall r, In r df -> treatment r = 0 \/ treatment r = 1) ->
   Forall (fun s => n_treated s + n_control s = n_customers s)
          (calculate_decile_stats df)).
Proof.
  unfold calculate_decile_stats. fold all_deciles. split; [|split].
  - rewrite map_map.
    rewrite (map_ext _ (fun d => if (fun _ : Z => true) d
                                 then group_size d df else 0))
      by (intros d; apply decile_stats_row_counts).
    rewrite (group_sizes_sum df (fun _ => true) all_deciles all_deciles_NoDup).
    f_equal. apply filter_ext. intros r. destruct (decile r) as [v|];
      [|reflexivity].
    rewrite andb_true_r. apply existsb_all_deciles.
  - apply Forall_map, Forall_forall. intros d _.
    destruct (decile_stats_row_counts df d) as (_ & -> & -> & ->).
    unfold group_size, len.
    pose proof (filter_disjoint_length_le
                  (fun r : Row F => treatment r =? 1)
                  (fun r : Row F => treatment r =? 0)
                  (filter (decile_is d) df)) as H.
    assert (Hd : forall x : Row F,
               (treatment x =? 1) && (treatment x =? 0) = false).
    { intros x. destruct (treatment x =? 1) eqn:E; [|reflexivity].
      apply Z.eqb_eq in E. rewrite E. reflexivity. }
    specialize (H Hd). lia.
  - intros H01. apply Forall_map, Forall_forall. intros d _.
    destruct (decile_stats_row_counts df d) as (_ & -> & -> & ->).
    unfold group_size, len.
    assert (Hd : forall x : Row F,
               (treatment x =? 1) && (treatment x =? 0) = false).
    { intros x. destruct (treatment x =? 1) eqn:E; [|reflexivity].
      apply Z.eqb_eq in E. rewrite E. reflexivity. }
    rewrite <- Nat2Z.inj_add.
    rewrite <- (filter_disjoint_or_length _ _ (filter (decile_is d) df) Hd).
    rewrite filter_all; [reflexivity|].
    intros r Hr. apply filter_In in Hr. destruct Hr as [Hr _].
    destruct (H01 r Hr) as [E|E]; rewrite E; reflexivity.
Qed.

(** The pool size reported by [calculate_portfolio_profit] for a selection
    of deciles within 1..10 is the sum of the customer counts of the
    selected deciles' rows in [calculate_decile_stats]. *)
Theorem pool_size_is_sum_of_selected_decile_counts
    df sel (f c p : F) (r : ProfitDict F) :
  (forall d, In d sel -> 1 <= d <= 10) ->
  calculate_portfolio_profit df sel f c p = Ok r ->
  pool_size r =
    Some (fold_right Z.add 0
            (map n_customers
                 (filter (fun s => existsb (Z.eqb (ds_decile s)) sel)
                         (calculate_decile_stats df)))).
Proof.
  intros Hsel Hr.
  assert (Hpool : pool_size r = Some (len (eligible_pool df sel))).
  { unfold calculate_portfolio_profit in Hr.
    destruct (len (eligible_pool df sel) =? 0) eqn:E.
    - apply Z.eqb_eq in E. rewrite E. injection Hr as <-. reflexivity.
    - destruct (py_int _); simpl in Hr; [|discriminate].
      injection Hr as <-. reflexivity. }
  rewrite Hpool. f_equal.
  rewrite sum_map_filter. unfold calculate_decile_stats. fold all_deciles.
  rewrite map_map.
  rewrite (map_ext _ (fun d => if existsb (Z.eqb d) sel
                               then group_size d df else 0)).
  2:{ intros d. destruct (decile_stats_row_counts df d) as (-> & -> & _).
      reflexivity. }
  rewrite (group_sizes_sum df _ all_deciles all_deciles_NoDup).
  unfold eligible_pool. f_equal. apply filter_ext.
  intros x. unfold isin. destruct (decile x) as [v|]; [|reflexivity].
  rewrite existsb_all_deciles.
  destruct (existsb (Z.eqb v) sel) eqn:E; [|now rewrite andb_false_r].
  apply existsb_exists in E. destruct E as (y & Hy & Hvy).
  apply Z.eqb_eq in Hvy. subst y. specialize (Hsel v Hy).
  rewrite andb_true_r. symmetry. apply andb_true_iff.
  split; apply Z.leb_le; lia.
Qed.

End DecileStatsFacts.

(** ** Shape and edge cases of the profit curve *)

Section CurveFacts.

Context {F : Type} {FO : FloatOps F}.

Implicit Types (df : list (Row F)) (sel : list Z) (c p : F).

Lemma profit_curve_loop_inv df sel c p :
  forall grid pcts ps,
    match profit_curve_loop df sel c p grid pcts ps with
    | Ok pp =>
        exists rs,
          map (fun pct => calculate_portfolio_profit
                            df sel (fdiv (of_Z pct) (of_Z 100)) c p) grid
            = map Ok rs /\
          pp = (pcts ++ grid, ps ++ map profit rs)
    | Raise e =>
        exists pct,
          In pct grid /\
          calculate_portfolio_profit df sel (fdiv (of_Z pct) (of_Z 100)) c p
            = Raise e
    end.
Proof.
  induction grid as [|g grid IH]; intros pcts ps; simpl.
  - exists []. now rewrite !app_nil_r.
  - destruct (calculate_portfolio_profit df sel (fdiv (of_Z g) (of_Z 100)) c p)
      as [r|e] eqn:E; simpl.
    + specialize (IH (pcts ++ [g]) (ps ++ [profit r])).
      destruct (profit_curve_loop df sel c p grid (pcts ++ [g])
                  (ps ++ [profit r])) as [pp|e].
      * destruct IH as (rs & Hrs & ->). exists (r :: rs). simpl.
        rewrite Hrs, <- !app_assoc. split; reflexivity.
      * destruct IH as (pct & Hin & Hpct). exists pct. split; [right|]; assumption.
    + exists g. split; [left; reflexivity|exact E].
Qed.

Lemma argmax_scan_bound (l : list F) :
  forall mp mi i, (mi < i)%nat ->
    (argmax_scan mp mi i l < i + length l)%nat.
Proof.
  induction l as [|x l IH]; intros mp mi i Hmi; simpl; [lia|].
  destruct (negb (fleb x mp)).
  - destruct (is_nan x); [lia|].
    specialize (IH x i (S i)). lia.
  - specialize (IH mp mi (S i)). lia.
Qed.

Lemma argmax_bound (l : list F) (m : nat) :
  argmax l = Ok m -> (m < length l)%nat.
Proof.
  destruct l as [|x l]; simpl; [discriminate|].
  intros H. injection H as <-.
  destruct (is_nan x); [lia|].
  pose proof (argmax_scan_bound l x 0%nat 1%nat). lia.
Qed.

(** Whatever the profits are (NaN included), a curve that is returned holds
    the percentages 5, 10, ..., 100, the twenty profits of the evaluations in
    that order, and an optimum that is one of these twenty points: the
    percentage and the profit reported as optimal sit at the same index.  An
    exception of [calculate_profit_curve] is always one raised by
    [calculate_portfolio_profit] at a grid point. *)
Theorem profit_curve_shape df sel c p (n_points : Z) :
  match calculate_profit_curve df sel c p n_points with
  | Ok curve =>
      percentages curve = grid20 /\
      (exists rs,
         map (fun pct => calculate_portfolio_profit
                           df sel (fdiv (of_Z pct) (of_Z 100)) c p) grid20
           = map Ok rs /\
         profits curve = map profit rs) /\
      exists i,
        (i < 20)%nat /\
        optimal_pct curve = nth i (percentages curve) 0 /\
        optimal_profit curve = nth i (profits curve) fnan
  | Raise e =>
      exists pct,
        In pct grid20 /\
        calculate_portfolio_profit df sel (fdiv (of_Z pct) (of_Z 100)) c p
          = Raise e
  end.
Proof.
  unfold calculate_profit_curve. change (py_range 5 105 5) with grid20.
  pose proof (profit_curve_loop_inv df sel c p grid20 [] []) as H.
  destruct (profit_curve_loop df sel c p grid20 [] []) as [pp|e]; simpl.
  - destruct H as (rs & Hrs & ->). cbn [fst snd app].
    assert (Hlen : length (map profit rs) = 20%nat).
    { rewrite length_map. apply (f_equal (@length _)) in Hrs.
      rewrite !length_map in Hrs. rewrite <- Hrs. reflexivity. }
    destruct (argmax (map profit rs)) as [m|e] eqn:E; simpl.
    + apply argmax_bound in E. rewrite Hlen in E.
      split; [reflexivity|]. split.
      * exists rs. split; [exact Hrs|reflexivity].
      * exists m. repeat split. exact E.
    + destruct (map profit rs); [discriminate|]. discriminate.
  - exact H.
Qed.

Lemma argmax_scan_constant (x : F) (n : nat) :
  fleb x x = true ->
  forall mi i, argmax_scan x mi i (repeat x n) = mi.
Proof.
  intros Hle. induction n as [|n IH]; intros mi i; simpl; [reflexivity|].
  rewrite Hle. simpl. apply IH.
Qed.

(** With a selection that matches no record (for instance no decile
    selected at all) every evaluation returns the all-zero result, so the
    curve is flat at 0 and the optimum is reported at the first grid point,
    5 percent, with profit 0. *)
Theorem profit_curve_of_empty_selection df sel c p (n_points : Z) :
  (forall r, In r df -> isin (decile r) sel = false) ->
  is_nan (of_Z 0) = false ->
  fleb (of_Z 0) (of_Z 0) = true ->
  calculate_profit_curve df sel c p n_points =
    Ok {| percentages := grid20;
          profits := repeat (of_Z 0) 20;
          optimal_pct := 5;
          optimal_profit := of_Z 0 |}.
Proof.
  intros Hsel Hnan Hle.
  pose proof (eligible_pool_nil df sel Hsel) as Hpool.
  set (zero := {| profit := of_Z 0; revenue := of_Z 0; cost := of_Z 0;
                  incremental_conversions := of_Z 0; emails_sent := 0;
                  pool_size := Some 0 |}).
  assert (Hcalc : forall f, calculate_portfolio_profit df sel f c p = Ok zero).
  { intros f. unfold calculate_portfolio_profit. rewrite Hpool. reflexivity. }
  unfold calculate_profit_curve. change (py_range 5 105 5) with grid20.
  rewrite (profit_curve_loop_ok df sel c p grid20 (repeat zero 20) [] []).
  2:{ rewrite (map_ext _ (fun _ => Ok zero)) by (intros; apply Hcalc).
      reflexivity. }
  cbn [app fst snd bind]. unfold zero. cbn [map repeat profit].
  change [of_Z 0; of_Z 0; of_Z 0; of_Z 0; of_Z 0; of_Z 0; of_Z 0; of_Z 0;
          of_Z 0; of_Z 0; of_Z 0; of_Z 0; of_Z 0; of_Z 0; of_Z 0; of_Z 0;
          of_Z 0; of_Z 0; of_Z 0; of_Z 0]
    with (of_Z 0 :: repeat (of_Z 0) 19).
  unfold argmax. rewrite Hnan, (argmax_scan_constant (of_Z 0) 19 Hle).
  reflexivity.
Qed.

End CurveFacts.

(** ** Loading frames with missing scores *)

Lemma index_of_not_In (i : nat) (l : list nat) :
  ~ In i l -> index_of i l = None.
Proof.
  induction l as [|j l IH]; intros H; simpl; [reflexivity|].
  destruct (Nat.eqb i j) eqn:E.
  - apply Nat.eqb_eq in E. subst j. exfalso. apply H. left. reflexivity.
  - rewrite IH; [reflexivity|]. intros Hin. apply H. right. exact Hin.
Qed.

Lemma index_of_Some (i : nat) (l : list nat) (p : nat) :
  index_of i l = Some p -> (p < length l)%nat /\ nth p l 0%nat = i.
Proof.
  revert p. induction l as [|j l IH]; intros p H; simpl in H; [discriminate|].
  destruct (Nat.eqb i j) eqn:E.
  - injection H as <-. apply Nat.eqb_eq in E. simpl. split; [lia|congruence].
  - destruct (index_of i l) as [q|]; [|discriminate].
    injection H as <-. destruct (IH q eq_refl) as [Hq Hn]. simpl.
    split; [lia|exact Hn].
Qed.

Lemma index_of_In (i : nat) (l : list nat) :
  In i l -> exists p, index_of i l = Some p.
Proof.
  intros H. destruct (index_of i l) as [p|] eqn:E; [exists p; reflexivity|].
  exfalso. revert E. induction l as [|j l IH]; simpl; [contradiction|].
  destruct (Nat.eqb i j) eqn:Eij; [discriminate|].
  destruct H as [H|H]; [subst j; rewrite Nat.eqb_refl in Eij; discriminate|].
  destruct (index_of i l); [discriminate|]. intros _. now apply IH.
Qed.

Lemma dropna_all_none {A : Type} (g : A -> option Z) (l : list A) :
  (forall x, In x l -> g x = None) -> dropna (map g l) = [].
Proof.
  induction l as [|x l IH]; intros H; simpl; [reflexivity|].
  rewrite (H x (or_introl eq_refl)). simpl. apply IH.
  intros y Hy. apply H. right. exact Hy.
Qed.

Lemma dropna_app (l l' : list (option Z)) :
  dropna (l ++ l') = dropna l ++ dropna l'.
Proof. unfold dropna. apply flat_map_app. Qed.

Lemma map_nth_seq {A : Type} (d : A) (l : list A) :
  map (fun i => nth i l d) (seq 0 (length l)) = l.
Proof.
  induction l as [|x l IH]; simpl; [reflexivity|].
  f_equal. rewrite <- seq_shift, map_map. exact IH.
Qed.

Lemma qcut_length (xs ls : list (option Z)) (q : Z) :
  qcut xs q = Ok ls -> length ls = length xs.
Proof.
  unfold qcut. destruct (sort_by Z.leb (dropna xs)); [discriminate|].
  destruct (has_dup _); [discriminate|].
  intros H. injection H as <-. apply length_map.
Qed.

Lemma qcut_ranks_with_missing (rs : list (option Z)) (n : nat) :
  Permutation (dropna rs) (zseq 1 n) ->
  ((n < 2)%nat -> qcut rs 10 = Raise ValueError) /\
  ((2 <= n)%nat ->
   qcut rs 10 = Ok (map (cut_label (qcut_bins (zseq 1 n) 10)) rs)).
Proof.
  intros Hperm.
  assert (Hs : sort_by Z.leb (dropna rs) = zseq 1 n).
  { rewrite (sort_by_Z_perm _ _ Hperm). apply sort_by_zseq. }
  split; intros Hn.
  - destruct n as [|[|n]]; [| |lia].
    + unfold qcut. rewrite Hs. reflexivity.
    + rewrite (qcut_unfold rs 10 (zseq 1 1) Hs); [reflexivity|discriminate].
  - rewrite (qcut_unfold rs 10 (zseq 1 n) Hs).
    + rewrite rank_bins_no_dup by exact Hn. reflexivity.
    + destruct n; [lia|discriminate].
Qed.

Section MissingScores.

Context {F : Type} {FO : FloatOps F}.

(** The number of scores that are not NaN. *)
Lemma argsort_length (xs : list F) :
  length (argsort xs) = length (filter (fun x => negb (is_nan x)) xs).
Proof.
  unfold argsort. rewrite (Permutation_length (sort_by_perm _ _)).
  rewrite <- (length_map (fun i => nth i xs fnan)).
  rewrite <- (filter_map_swap (fun x => negb (is_nan x))
                              (fun i => nth i xs fnan)).
  rewrite map_nth_seq. reflexivity.
Qed.

Lemma argsort_In (xs : list F) (i : nat) :
  In i (argsort xs) <-> (i < length xs)%nat /\ is_nan (nth i xs fnan) = false.
Proof.
  unfold argsort. split.
  - intros H. apply (Permutation_in _ (sort_by_perm _ _)) in H.
    apply filter_In in H. destruct H as [H1 H2]. apply in_seq in H1.
    apply negb_true_iff in H2. split; [lia|exact H2].
  - intros [H1 H2].
    apply (Permutation_in _ (Permutation_sym (sort_by_perm _ _))).
    apply filter_In. split; [apply in_seq; lia|].
    apply negb_true_iff. exact H2.
Qed.

Lemma argsort_NoDup (xs : list F) : NoDup (argsort xs).
Proof.
  unfold argsort.
  eapply Permutation_NoDup; [apply Permutation_sym, sort_by_perm|].
  apply NoDup_filter, seq_NoDup.
Qed.

Lemma rank_at_missing (xs : list F) (i : nat) :
  is_nan (nth i xs fnan) = true -> rank_at xs i = None.
Proof.
  intros H. unfold rank_at. rewrite index_of_not_In; [reflexivity|].
  intros Hin. apply argsort_In in Hin. destruct Hin as [_ Hin]. congruence.
Qed.

Lemma rank_at_present (xs : list F) (i : nat) :
  (i < length xs)%nat -> is_nan (nth i xs fnan) = false ->
  exists r, rank_at xs i = Some r /\
            1 <= r <= Z.of_nat (length (argsort xs)).
Proof.
  intros Hi Hnan. unfold rank_at.
  destruct (index_of_In i (argsort xs)) as (p & Hp).
  { apply argsort_In. split; assumption. }
  rewrite Hp. simpl. eexists. split; [reflexivity|].
  apply index_of_Some in Hp. lia.
Qed.

Lemma rank_first_dropna_perm (xs : list F) :
  Permutation (dropna (rank_first xs)) (zseq 1 (length (argsort xs))).
Proof.
  unfold rank_first. fold (rank_at xs).
  assert (Hsplit : Permutation
            (seq 0 (length xs))
            (argsort xs
             ++ filter (fun i => is_nan (nth i xs fnan)) (seq 0 (length xs)))).
  { eapply perm_trans.
    - apply Permutation_sym.
      apply (filter_split_perm (fun i => is_nan (nth i xs fnan))).
    - apply Permutation_app_tail, Permutation_sym. unfold argsort.
      apply sort_by_perm. }
  eapply perm_trans.
  { apply dropna_perm, Permutation_map, Hsplit. }
  rewrite map_app, dropna_app.
  rewrite (dropna_all_none (rank_at xs)
             (filter (fun i => is_nan (nth i xs fnan)) (seq 0 (length xs)))).
  2:{ intros i Hi. apply filter_In in Hi. apply rank_at_missing, Hi. }
  rewrite app_nil_r.
  assert (Hmap : map (rank_at xs) (argsort xs)
                 = map Some (zseq 1 (length (argsort xs)))).
  { unfold rank_at.
    rewrite <- (map_map (fun i => index_of i (argsort xs))
                        (option_map (fun p => Z.of_nat (S p)))).
    rewrite (index_of_map_self _ (argsort_NoDup xs)), map_map. simpl.
    replace (zseq 1 (length (argsort xs)))
      with (map (fun p => Z.of_nat (S p)) (seq 0 (length (argsort xs))))
      by exact (rank_positions_zseq (length (argsort xs)) 0).
    rewrite map_map. reflexivity. }
  rewrite Hmap, dropna_map_Some. apply Permutation_refl.
Qed.

End MissingScores.

Lemma map_fst_combine_eq {A B : Type} (l : list A) :
  forall l' : list B, length l = length l' -> map fst (combine l l') = l.
Proof.
  induction l as [|a l IH]; intros [|b l'] H; simpl in *;
    try reflexivity; try discriminate.
  f_equal. apply IH. lia.
Qed.

Lemma filter_option_dropna (h : option Z -> bool) (l : list (option Z)) :
  h None = false ->
  length (filter h l) = length (filter (fun v => h (Some v)) (dropna l)).
Proof.
  intros Hn. induction l as [|[v|] l IH]; simpl; [reflexivity| |].
  - destruct (h (Some v)); simpl; now rewrite IH.
  - rewrite Hn. exact IH.
Qed.

Section LoadGeneral.

Context {F : Type} {FO : FloatOps F}.

Lemma valid_scores_count (raw : list (RawRow F)) :
  length (argsort (map raw_uplift_score raw))
  = length (filter (fun r => negb (is_nan (raw_uplift_score r))) raw).
Proof.
  rewrite argsort_length, filter_map_swap, length_map. reflexivity.
Qed.

(** What [load_and_prepare_data] does in general: it fails when fewer than
    two scores are present, and otherwise labels position [i] from its
    rank among the present scores. *)
Lemma load_rows_spec (raw : list (RawRow F)) :
  let xs := map raw_uplift_score raw in
  let n' := length (argsort xs) in
  ((n' < 2)%nat -> load_and_prepare_data raw = Raise ValueError) /\
  ((2 <= n')%nat ->
   exists rows,
     load_and_prepare_data raw = Ok rows /\
     length rows = length raw /\
     map decile rows
       = map (fun i => option_map (fun l => l + 1)
                         (cut_label (qcut_bins (zseq 1 n') 10) (rank_at xs i)))
             (seq 0 (length raw))).
Proof.
  intros xs n'.
  destruct (qcut_ranks_with_missing (rank_first xs) n'
              (rank_first_dropna_perm xs)) as [Hfail Hok].
  unfold load_and_prepare_data. fold xs. split; intros Hn.
  - rewrite (Hfail Hn). reflexivity.
  - rewrite (Hok Hn). simpl.
    set (bins := qcut_bins (zseq 1 n') 10).
    assert (Hxs : length xs = length raw) by (unfold xs; apply length_map).
    assert (Hlab : length raw = length (map (cut_label bins) (rank_first xs))).
    { rewrite length_map, rank_first_length. symmetry. exact Hxs. }
    eexists. split; [reflexivity|]. split.
    + rewrite length_map, length_combine, <- Hlab. lia.
    + rewrite map_map. simpl.
      rewrite <- (map_map snd (option_map (fun l => l + 1))).
      rewrite (map_snd_combine_eq _ _ Hlab), map_map.
      unfold rank_first. fold (rank_at xs). rewrite map_map, Hxs. reflexivity.
Qed.

(** [load_and_prepare_data] needs two scores: it raises [ValueError] (the
    bin edges of [qcut] are not unique) exactly when fewer than two records
    have a score that is not NaN, and otherwise returns a frame with as many
    rows as the input. *)
Theorem load_and_prepare_data_needs_two_scores (raw : list (RawRow F)) :
  let k := length (filter (fun r => negb (is_nan (raw_uplift_score r))) raw) in
  ((k < 2)%nat -> load_and_prepare_data raw = Raise ValueError) /\
  ((2 <= k)%nat ->
   exists rows, load_and_prepare_data raw = Ok rows /\
                length rows = length raw).
Proof.
  intros k. unfold k. rewrite <- valid_scores_count.
  destruct (load_rows_spec raw) as [Hfail Hok]. split.
  - exact Hfail.
  - intros Hn. destruct (Hok Hn) as (rows & Hrows & Hlen & _).
    exists rows. split; assumption.
Qed.

(** A frame that is returned has the rows of the input in the same order,
    with score, treatment flag and outcome unchanged. *)
Theorem load_and_prepare_data_keeps_rows
    (raw : list (RawRow F)) (rows : list (Row F)) :
  load_and_prepare_data raw = Ok rows ->
  map uplift_score rows = map raw_uplift_score raw /\
  map treatment rows = map raw_treatment raw /\
  map y_true rows = map raw_y_true raw.
Proof.
  unfold load_and_prepare_data.
  destruct (qcut (rank_first (map raw_uplift_score raw)) 10) as [labels|e] eqn:E;
    simpl; [|discriminate].
  intros H. injection H as <-.
  assert (Hlen : length raw = length labels).
  { apply qcut_length in E. rewrite E, rank_first_length, length_map.
    reflexivity. }
  rewrite !map_map. simpl.
  rewrite <- (map_map fst raw_uplift_score), <- (map_map fst raw_treatment),
          <- (map_map fst raw_y_true).
  rewrite (map_fst_combine_eq _ _ Hlen). repeat split.
Qed.

(** A record whose score is NaN gets no decile (NaN), and every record with
    a proper score gets a decile in 1..10. *)
Theorem load_and_prepare_data_missing_scores
    (raw : list (RawRow F)) (rows : list (Row F))
    (i : nat) (rw : RawRow F) (r : Row F) :
  load_and_prepare_data raw = Ok rows ->
  nth_error raw i = Some rw ->
  nth_error rows i = Some r ->
  (is_nan (raw_uplift_score rw) = true -> decile r = None) /\
  (is_nan (raw_uplift_score rw) = false ->
   exists d, decile r = Some d /\ 1 <= d <= 10).
Proof.
  intros Hload Hrw Hr.
  destruct (load_rows_spec raw) as [Hfail Hok].
  set (xs := map raw_uplift_score raw) in *.
  set (n' := length (argsort xs)) in *.
  destruct (Nat.lt_ge_cases n' 2) as [Hlt|Hge].
  { rewrite (Hfail Hlt) in Hload. discriminate. }
  destruct (Hok Hge) as (rows' & Hrows' & Hlen & Hdec).
  rewrite Hload in Hrows'. injection Hrows' as <-.
  assert (Hi : (i < length raw)%nat).
  { apply nth_error_Some. rewrite Hrw. discriminate. }
  assert (Hscore : nth i xs fnan = raw_uplift_score rw).
  { apply nth_error_nth. unfold xs. rewrite nth_error_map, Hrw. reflexivity. }
  assert (Hd : decile r = option_map (fun l => l + 1)
                 (cut_label (qcut_bins (zseq 1 n') 10) (rank_at xs i))).
  { apply (f_equal (fun l => nth_error l i)) in Hdec.
    rewrite !nth_error_map, Hr, nth_error_seq in Hdec.
    apply Nat.ltb_lt in Hi. rewrite Hi in Hdec. simpl in Hdec.
    injection Hdec as Hdec. exact Hdec. }
  split; intros Hnan.
  - rewrite Hd, rank_at_missing; [reflexivity|]. rewrite Hscore. exact Hnan.
  - destruct (rank_at_present xs i) as (rk & Hrk & Hrange).
    { unfold xs. rewrite length_map. exact Hi. }
    { rewrite Hscore. exact Hnan. }
    fold n' in Hrange. rewrite Hd, Hrk, cut_label_rank by lia.
    eexists. split; [reflexivity|]. apply rank_decile_range; lia.
Qed.


End LoadGeneral.

(** ** Deciles follow the scores *)

Lemma insert_by_sorted {A : Type} (leb : A -> A -> bool) (x : A) (l : list A) :
  (forall a b, In a (x :: l) -> In b (x :: l) ->
               leb a b = true \/ leb b a = true) ->
  Sorted (fun a b => leb a b = true) l ->
  Sorted (fun a b => leb a b = true) (insert_by leb x l).
Proof.
  intros Htot Hs. induction Hs as [|y l Hs IH Hhd]; simpl.
  - repeat constructor.
  - destruct (leb x y) eqn:E.
    + constructor; [constructor; assumption|]. constructor. exact E.
    + assert (Hyx : leb y x = true).
      { destruct (Htot x y) as [H|H]; simpl; auto. congruence. }
      constructor.
      * apply IH. intros a b Ha Hb. apply Htot; simpl in *; tauto.
      * destruct l as [|z l]; simpl.
        -- constructor. exact Hyx.
        -- destruct (leb x z); constructor; [exact Hyx|].
           inversion Hhd. assumption.
Qed.

Lemma sort_by_sorted {A : Type} (leb : A -> A -> bool) (l : list A) :
  (forall a b, In a l -> In b l -> leb a b = true \/ leb b a = true) ->
  Sorted (fun a b => leb a b = true) (sort_by leb l).
Proof.
  induction l as [|x l IH]; intros Htot; simpl; [constructor|].
  apply insert_by_sorted.
  - intros a b Ha Hb. apply Htot.
    + destruct Ha as [Ha|Ha]; [left; exact Ha|right].
      apply (Permutation_in _ (sort_by_perm leb l)). exact Ha.
    + destruct Hb as [Hb|Hb]; [left; exact Hb|right].
      apply (Permutation_in _ (sort_by_perm leb l)). exact Hb.
  - apply IH. intros a b Ha Hb. apply Htot; right; assumption.
Qed.

Lemma index_of_Some_In (i : nat) (l : list nat) (p : nat) :
  index_of i l = Some p -> In i l.
Proof.
  intros H. apply index_of_Some in H. destruct H as [Hp <-].
  apply nth_In. exact Hp.
Qed.

Lemma strongly_sorted_positions (R : nat -> nat -> Prop) (l : list nat) :
  StronglySorted R l ->
  forall a b p q,
    index_of a l = Some p -> index_of b l = Some q -> (p < q)%nat -> R a b.
Proof.
  induction 1 as [|c l Hs IH Hall]; intros a b p q Ha Hb Hpq;
    simpl in Ha, Hb; [discriminate|].
  destruct (Nat.eqb a c) eqn:Eac.
  - injection Ha as <-. apply Nat.eqb_eq in Eac. subst c.
    destruct (Nat.eqb b a) eqn:Eba.
    + injection Hb as <-. lia.
    + destruct (index_of b l) as [q'|] eqn:Eq; [|discriminate].
      rewrite Forall_forall in Hall. apply Hall.
      apply (index_of_Some_In b l q'). exact Eq.
  - destruct (index_of a l) as [p'|] eqn:Ep; [|discriminate].
    injection Ha as <-.
    destruct (Nat.eqb b c) eqn:Ebc.
    + injection Hb as <-. lia.
    + destruct (index_of b l) as [q'|] eqn:Eq; [|discriminate].
      injection Hb as <-. apply (IH a b p' q'); auto. lia.
Qed.

Lemma rank_decile_mono (m r r' : Z) :
  1 <= m -> 1 <= r <= r' -> r' <= m + 1 ->
  rank_decile m r <= rank_decile m r'.
Proof.
  intros Hm Hr Hr'.
  destruct (Z.eq_dec r 1) as [->|Hne].
  - change (rank_decile m 1) with 1.
    pose proof (rank_decile_range m r'). lia.
  - destruct (rank_decile_interval m r) as (d & Hd & Hint); [lia|lia|].
    destruct (rank_decile_interval m r') as (d' & Hd' & Hint'); [lia|lia|].
    rewrite (rank_decile_char m r d), (rank_decile_char m r' d')
      by (assumption || lia).
    destruct (Z_le_gt_dec d d') as [Hle|Hgt]; [exact Hle|]. nia.
Qed.

Section DecileOrder.

Context {F : Type} {FO : FloatOps F} {FL : FloatLaws F}.

Lemma argsort_strongly_sorted (xs : list F) :
  StronglySorted (fun i j => fleb (nth i xs fnan) (nth j xs fnan) = true)
                 (argsort xs).
Proof.
  apply Sorted_StronglySorted.
  - intros a b c Hab Hbc. eapply fleb_trans; eassumption.
  - unfold argsort.
    apply (sort_by_sorted (fun i j => fleb (nth i xs fnan) (nth j xs fnan))).
    intros a b Ha Hb. apply filter_In in Ha, Hb.
    destruct Ha as [_ Ha], Hb as [_ Hb]. apply negb_true_iff in Ha, Hb.
    apply fleb_total; assumption.
Qed.

(** A strictly lower score has a strictly lower rank. *)
Lemma rank_at_strict (xs : list F) (i j : nat) (ri rj : Z) :
  rank_at xs i = Some ri -> rank_at xs j = Some rj ->
  fleb (nth j xs fnan) (nth i xs fnan) = false ->
  ri < rj.
Proof.
  unfold rank_at. intros Hi Hj Hlt.
  destruct (index_of i (argsort xs)) as [p|] eqn:Ep; [|discriminate].
  destruct (index_of j (argsort xs)) as [q|] eqn:Eq; [|discriminate].
  simpl in Hi, Hj. injection Hi as <-. injection Hj as <-.
  assert (Hpq : (p < q)%nat).
  { destruct (Nat.lt_trichotomy p q) as [H|[H|H]]; [exact H| |].
    - exfalso. subst q.
      apply index_of_Some in Ep, Eq. destruct Ep as [Hpl Ep], Eq as [_ Eq].
      assert (i = j) by congruence. subst j.
      assert (Hin : In i (argsort xs)).
      { rewrite <- Ep. apply nth_In. exact Hpl. }
      apply argsort_In in Hin. destruct Hin as [_ Hnan].
      destruct (fleb_total _ _ Hnan Hnan); congruence.
    - exfalso.
      pose proof (strongly_sorted_positions _ _ (argsort_strongly_sorted xs)
                    j i q p Eq Ep H) as Hji.
      simpl in Hji. congruence. }
  lia.
Qed.

(** Deciles follow the scores: of two records with proper scores, the one
    with the strictly higher score never gets the lower decile. *)
Theorem load_and_prepare_data_deciles_follow_scores
    (raw : list (RawRow F)) (rows : list (Row F))
    (i j : nat) (rwi rwj : RawRow F) (ri rj : Row F) :
  load_and_prepare_data raw = Ok rows ->
  nth_error raw i = Some rwi -> nth_error raw j = Some rwj ->
  nth_error rows i = Some ri -> nth_error rows j = Some rj ->
  is_nan (raw_uplift_score rwi) = false ->
  is_nan (raw_uplift_score rwj) = false ->
  fleb (raw_uplift_score rwj) (raw_uplift_score rwi) = false ->
  exists di dj, decile ri = Some di /\ decile rj = Some dj /\ di <= dj.
Proof.
  intros Hload Hrwi Hrwj Hri Hrj Hnani Hnanj Hlt.
  destruct (load_rows_spec raw) as [Hfail Hok].
  set (xs := map raw_uplift_score raw) in *.
  set (n' := length (argsort xs)) in *.
  destruct (Nat.lt_ge_cases n' 2) as [Hlt2|Hge].
  { rewrite (Hfail Hlt2) in Hload. discriminate. }
  destruct (Hok Hge) as (rows' & Hrows' & Hlen & Hdec).
  rewrite Hload in Hrows'. injection Hrows' as <-.
  assert (Hpoint : forall k rw r,
            nth_error raw k = Some rw -> nth_error rows k = Some r ->
            is_nan (raw_uplift_score rw) = false ->
            nth k xs fnan = raw_uplift_score rw /\
            exists rk, rank_at xs k = Some rk /\
                       1 <= rk <= Z.of_nat n' /\
                       decile r = Some (rank_decile (Z.of_nat n' - 1) rk)).
  { intros k rw r Hrw Hr Hnan.
    assert (Hk : (k < length raw)%nat).
    { apply nth_error_Some. rewrite Hrw. discriminate. }
    assert (Hscore : nth k xs fnan = raw_uplift_score rw).
    { apply nth_error_nth. unfold xs. rewrite nth_error_map, Hrw.
      reflexivity. }
    split; [exact Hscore|].
    destruct (rank_at_present xs k) as (rk & Hrk & Hrange).
    { unfold xs. rewrite length_map. exact Hk. }
    { rewrite Hscore. exact Hnan. }
    exists rk. split; [exact Hrk|]. split; [exact Hrange|].
    apply (f_equal (fun l => nth_error l k)) in Hdec.
    rewrite !nth_error_map, Hr, nth_error_seq in Hdec.
    apply Nat.ltb_lt in Hk. rewrite Hk in Hdec. simpl in Hdec.
    injection Hdec as Hdec. rewrite Hdec, Hrk.
    apply cut_label_rank; lia. }
  destruct (Hpoint i rwi ri Hrwi Hri Hnani) as (Hsi & rki & Hrki & Hbi & Hdi).
  destruct (Hpoint j rwj rj Hrwj Hrj Hnanj) as (Hsj & rkj & Hrkj & Hbj & Hdj).
  assert (Hrank : rki < rkj).
  { apply (rank_at_strict xs i j rki rkj Hrki Hrkj).
    rewrite Hsi, Hsj. exact Hlt. }
  exists (rank_decile (Z.of_nat n' - 1) rki),
         (rank_decile (Z.of_nat n' - 1) rkj).
  split; [exact Hdi|]. split; [exact Hdj|].
  apply rank_decile_mono; lia.
Qed.

End DecileOrder.

(** ** The deciles selected in [main] *)

Lemma select_deciles_loop_filter (checked : Z -> bool) (grid : list Z) :
  forall acc,
    select_deciles_loop checked grid acc = acc ++ filter checked grid.
Proof.
  induction grid as [|i grid IH]; intros acc; simpl.
  - now rewrite app_nil_r.
  - rewrite IH. destruct (checked i); [|reflexivity].
    now rewrite <- app_assoc.
Qed.

Lemma selected_deciles_of_filter (checked : Z -> bool) :
  selected_deciles_of checked
  = filter checked [10; 9; 8; 7; 6; 5; 4; 3; 2; 1].
Proof.
  unfold selected_deciles_of. rewrite select_deciles_loop_filter. reflexivity.
Qed.

Lemma In_selected_deciles_of (checked : Z -> bool) (d : Z) :
  In d (selected_deciles_of checked) <-> 1 <= d <= 10 /\ checked d = true.
Proof.
  rewrite selected_deciles_of_filter, filter_In. simpl.
  split; intros [H1 H2]; (split; [lia|exact H2]).
Qed.

Lemma In_all_deciles (d : Z) : In d all_deciles <-> 1 <= d <= 10.
Proof.
  change all_deciles with [1; 2; 3; 4; 5; 6; 7; 8; 9; 10]. simpl. lia.
Qed.

(** The checkbox loop selects exactly the ticked deciles among 1..10, each
    once, and [excluded] holds exactly the deciles 1..10 that are not
    ticked: the two lists partition the ten deciles. *)
Theorem selected_and_excluded_partition_the_deciles (checked : Z -> bool) :
  (forall d, In d (selected_deciles_of checked)
             <-> 1 <= d <= 10 /\ checked d = true) /\
  NoDup (selected_deciles_of checked) /\
  (forall d, In d (excluded_deciles (selected_deciles_of checked))
             <-> 1 <= d <= 10 /\ checked d = false).
Proof.
  split; [apply In_selected_deciles_of|]. split.
  - rewrite selected_deciles_of_filter. apply NoDup_filter.
    repeat (constructor; [simpl; intros H; repeat destruct H as [H|H];
                          try discriminate; try contradiction|]).
    constructor.
  - intros d. unfold excluded_deciles. rewrite filter_In, In_all_deciles.
    rewrite negb_true_iff. split; intros [Hd H]; (split; [exact Hd|]).
    + destruct (checked d) eqn:E; [|reflexivity].
      assert (Hex : existsb (Z.eqb d) (selected_deciles_of checked) = true).
      { apply existsb_exists. exists d. split; [|apply Z.eqb_refl].
        apply In_selected_deciles_of. split; assumption. }
      congruence.
    + destruct (existsb (Z.eqb d) (selected_deciles_of checked)) eqn:E;
        [|reflexivity].
      apply existsb_exists in E. destruct E as (x & Hx & Hdx).
      apply Z.eqb_eq in Hdx. subst x.
      apply In_selected_deciles_of in Hx. destruct Hx as [_ Hx]. congruence.
Qed.

Section AppFacts.

Context {F : Type} {FO : FloatOps F}.

(** When every checkbox is ticked, nothing is excluded and the results
    computed for the selection ("after") are those computed for all deciles
    ("before"): same portfolio result, same profit curve. *)
Theorem all_ticked_gives_the_full_portfolio
    (checked : Z -> bool) (df : list (Row F)) (f c p : F) :
  (forall d, 1 <= d <= 10 -> checked d = true) ->
  excluded_deciles (selected_deciles_of checked) = [] /\
  calculate_portfolio_profit df (selected_deciles_of checked) f c p
    = calculate_portfolio_profit df all_deciles f c p /\
  forall n_points,
    calculate_profit_curve df (selected_deciles_of checked) c p n_points
    = calculate_profit_curve df all_deciles c p n_points.
Proof.
  intros Hall.
  assert (Hmem : forall v, In v (selected_deciles_of checked)
                           <-> In v all_deciles).
  { intros v. rewrite In_selected_deciles_of, In_all_deciles.
    split; [tauto|]. intros Hv. split; [exact Hv|apply Hall, Hv]. }
  pose proof (eligible_pool_same_members df _ _ Hmem) as Hpool.
  split; [|split].
  - unfold excluded_deciles. apply filter_none. intros d Hd.
    apply negb_false_iff, existsb_exists. exists d.
    split; [apply Hmem, Hd|apply Z.eqb_refl].
  - unfold calculate_portfolio_profit. rewrite Hpool. reflexivity.
  - intros n_points. unfold calculate_profit_curve.
    rewrite (profit_curve_loop_same_pool df _ _ c p Hpool). reflexivity.
Qed.

End AppFacts.

(** ** The decile bar chart *)

Section ChartFacts.

Context {F : Type} {FO : FloatOps F}.

Lemma bar_styles_loop_map (sel : list Z) (rows : list (DecileProfit F)) :
  forall colors opacities patterns,
    bar_styles_loop rows sel colors opacities patterns =
      {| bar_colors :=
           colors ++ map (fun r => fst (fst (bar_style_of sel r))) rows;
         bar_opacities :=
           opacities ++ map (fun r => snd (fst (bar_style_of sel r))) rows;
         bar_patterns :=
           patterns ++ map (fun r => snd (bar_style_of sel r)) rows |}.
Proof.
  induction rows as [|row rows IH]; intros colors opacities patterns; simpl.
  - now rewrite !app_nil_r.
  - remember (bar_style_of sel row) as st eqn:Hst.
    unfold bar_style_of in Hst.
    destruct (negb (existsb (Z.eqb (ds_decile (dp_stats row))) sel));
      [|destruct (ds_decile (dp_stats row) =? 9);
        [|destruct (is_positive (dp_profit row))]];
      subst st; rewrite IH; simpl; now rewrite <- !app_assoc.
Qed.

(** The colour loop yields one colour, opacity and pattern per bar, in the
    order of the rows.  A bar whose decile is not selected is light grey,
    faded (0.4) and hatched whatever its profit; a selected bar is solid
    (0.9, no hatching), red for decile 9 even when it is profitable, and
    otherwise green exactly when its profit is positive. *)
Theorem bar_styles_follow_the_selection
    (rows : list (DecileProfit F)) (sel : list Z)
    (i : nat) (row : DecileProfit F) :
  nth_error rows i = Some row ->
  let st := bar_styles_loop rows sel [] [] [] in
  let decile := ds_decile (dp_stats row) in
  length (bar_colors st) = length rows /\
  length (bar_opacities st) = length rows /\
  length (bar_patterns st) = length rows /\
  (existsb (Z.eqb decile) sel = false ->
   nth_error (bar_colors st) i = Some "#bdc3c7"%string /\
   nth_error (bar_opacities st) i = Some (fdiv (of_Z 4) (of_Z 10)) /\
   nth_error (bar_patterns st) i = Some "/"%string) /\
  (existsb (Z.eqb decile) sel = true ->
   nth_error (bar_opacities st) i = Some (fdiv (of_Z 9) (of_Z 10)) /\
   nth_error (bar_patterns st) i = Some EmptyString /\
   (decile = 9 -> nth_error (bar_colors st) i = Some "#e74c3c"%string) /\
   (decile <> 9 ->
    nth_error (bar_colors st) i =
      Some (if is_positive (dp_profit row)
            then "#27ae60"%string else "#95a5a6"%string))).
Proof.
  intros Hrow st decile. unfold st. rewrite bar_styles_loop_map. simpl.
  rewrite !length_map, !nth_error_map, Hrow. simpl.
  split; [reflexivity|]. split; [reflexivity|]. split; [reflexivity|].
  unfold bar_style_of. fold decile. split; intros Hsel; rewrite Hsel; simpl.
  - repeat split.
  - destruct (decile =? 9) eqn:E.
    + apply Z.eqb_eq in E. repeat split. intros Hne. contradiction.
    + apply Z.eqb_neq in E.
      destruct (is_positive (dp_profit row)); repeat split;
        intros H9; contradiction.
Qed.

Lemma iloc0_filter_found {A : Type} (g : A -> Z) (k : Z) (l : list A) :
  In k (map g l) ->
  exists x, iloc0 (filter (fun r => g r =? k) l) = ChartOk x.
Proof.
  intros H. apply in_map_iff in H. destruct H as (x & Hx & Hin).
  destruct (filter (fun r => g r =? k) l) as [|y l'] eqn:E.
  - exfalso. assert (Hf : In x (filter (fun r => g r =? k) l)).
    { apply filter_In. split; [exact Hin|]. apply Z.eqb_eq. exact Hx. }
    rewrite E in Hf. contradiction.
  - exists y. reflexivity.
Qed.

Lemma iloc0_filter_missing {A : Type} (g : A -> Z) (k : Z) (l : list A) :
  ~ In k (map g l) -> iloc0 (filter (fun r => g r =? k) l) = IndexError.
Proof.
  intros H. rewrite filter_none; [reflexivity|].
  intros x Hx. apply Z.eqb_neq. intros E. apply H.
  apply in_map_iff. exists x. split; assumption.
Qed.

(** [build_decile_bars] raises [IndexError] exactly when the frame it is
    given has no row for decile 8 or no row for decile 9.  On the frame that
    [calculate_decile_profits] derives from [calculate_decile_stats] it
    therefore never fails, whatever the data and the selection, and draws
    the ten bars of deciles 1..10. *)
Theorem build_decile_bars_needs_deciles_8_and_9
    (rows : list (DecileProfit F)) (sel : list Z)
    (df : list (Row F)) (c p : F) :
  (build_decile_bars rows sel = IndexError <->
   ~ In 8 (map (fun r => ds_decile (dp_stats r)) rows) \/
   ~ In 9 (map (fun r => ds_decile (dp_stats r)) rows)) /\
  exists fig,
    build_decile_bars
      (calculate_decile_profits (calculate_decile_stats df) c p) sel
      = ChartOk fig /\
    bars_x fig = [1; 2; 3; 4; 5; 6; 7; 8; 9; 10] /\
    length (bars_y fig) = 10%nat /\
    length (bar_colors (bars_styles fig)) = 10%nat.
Proof.
  assert (Hiff : forall rows0 : list (DecileProfit F),
            build_decile_bars rows0 sel = IndexError <->
            ~ In 8 (map (fun r => ds_decile (dp_stats r)) rows0) \/
            ~ In 9 (map (fun r => ds_decile (dp_stats r)) rows0)).
  { intros rows0. unfold build_decile_bars. split.
    - intros H.
      destruct (in_dec Z.eq_dec 8 (map (fun r => ds_decile (dp_stats r)) rows0))
        as [H8|H8]; [|left; exact H8].
      destruct (in_dec Z.eq_dec 9 (map (fun r => ds_decile (dp_stats r)) rows0))
        as [H9|H9]; [|right; exact H9].
      exfalso.
      destruct (iloc0_filter_found _ 8 rows0 H8) as (x8 & E8).
      destruct (iloc0_filter_found _ 9 rows0 H9) as (x9 & E9).
      rewrite E8, E9 in H. discriminate.
    - intros [H8|H9].
      + rewrite (iloc0_filter_missing _ 8 rows0 H8). reflexivity.
      + rewrite (iloc0_filter_missing _ 9 rows0 H9).
        destruct (iloc0 _); reflexivity. }
  split; [apply Hiff|].
  set (out := calculate_decile_profits (calculate_decile_stats df) c p).
  assert (Hx : map (fun r => ds_decile (dp_stats r)) out
               = [1; 2; 3; 4; 5; 6; 7; 8; 9; 10]).
  { unfold out, calculate_decile_profits, calculate_decile_stats.
    rewrite !map_map. simpl.
    repeat match goal with
           | |- context [ds_decile (decile_stats_row df ?d)] =>
               rewrite (proj1 (decile_stats_row_counts df d))
           end.
    reflexivity. }
  assert (Hlen : length out = 10%nat).
  { apply (f_equal (@List.length _)) in Hx. rewrite length_map in Hx.
    exact Hx. }
  clearbody out.
  destruct (build_decile_bars out sel) as [fig|] eqn:E.
  - exists fig. split; [reflexivity|].
    unfold build_decile_bars in E.
    destruct (iloc0 (filter (fun r => ds_decile (dp_stats r) =? 8) out));
      [|discriminate].
    destruct (iloc0 (filter (fun r => ds_decile (dp_stats r) =? 9) out));
      [|discriminate].
    injection E as <-. cbn [bars_x bars_y bars_styles].
    rewrite bar_styles_loop_map. cbn [bar_colors app].
    rewrite !length_map. repeat split; assumption.
  - exfalso. apply Hiff in E. rewrite Hx in E. simpl in E.
    destruct E as [E|E]; apply E; tauto.
Qed.

End ChartFacts.

(** ** Concrete evaluations of the further properties *)

Lemma spray_matches_portfolio_on_both_arms_witness :
  (forall r, In r frame4_b64 -> isin (decile r) all_deciles = true) /\
  filter (fun r => treatment r =? 1) frame4_b64 <> [] /\
  filter (fun r => treatment r =? 0) frame4_b64 <> [] /\
  ftrunc (fmul (of_Z (len frame4_b64)) (of_Z 1)) = Some (len frame4_b64) /\
  exists r,
    calculate_portfolio_profit frame4_b64 all_deciles (of_Z 1)
      (b64 1 2) (b64 10 1) = Ok r /\
    profit r
      = profit (calculate_spray_and_pray frame4_b64 (b64 1 2) (b64 10 1)).
Proof.
  assert (Hsel : forall r, In r frame4_b64 ->
                           isin (decile r) all_deciles = true).
  { intros r [<-|[<-|[<-|[<-|[]]]]]; reflexivity. }
  assert (Ht : filter (fun r => treatment r =? 1) frame4_b64 <> [])
    by discriminate.
  assert (Hc : filter (fun r => treatment r =? 0) frame4_b64 <> [])
    by discriminate.
  assert (Hk : ftrunc (fmul (of_Z (len frame4_b64)) (of_Z 1))
               = Some (len frame4_b64)) by reflexivity.
  split; [exact Hsel|]. split; [exact Ht|]. split; [exact Hc|].
  split; [exact Hk|].
  destruct (spray_matches_portfolio_on_both_arms frame4_b64 all_deciles
              (b64 1 2) (b64 10 1) Hsel Ht Hc Hk) as (r & Hr & Hp & _).
  exists r. split; assumption.
Defined.

Lemma decile_stats_partition_witness :
  (forall r, In r frame4_b64 -> treatment r = 0 \/ treatment r = 1) /\
  fold_right Z.add 0 (map n_customers (calculate_decile_stats frame4_b64)) = 4 /\
  Forall (fun s => n_treated s + n_control s = n_customers s)
         (calculate_decile_stats frame4_b64).
Proof.
  assert (H01 : forall r, In r frame4_b64 ->
                          treatment r = 0 \/ treatment r = 1).
  { intros r [<-|[<-|[<-|[<-|[]]]]]; simpl; auto. }
  split; [exact H01|].
  destruct (decile_stats_partition frame4_b64) as (Hsum & _ & Heq).
  split; [rewrite Hsum; reflexivity|exact (Heq H01)].
Defined.

Lemma pool_size_is_sum_of_selected_decile_counts_witness :
  (forall d, In d [1; 3; 10] -> 1 <= d <= 10) /\
  exists r,
    calculate_portfolio_profit frame4_b64 [1; 3; 10] (b64 1 2) (b64 1 2)
      (b64 10 1) = Ok r /\
    pool_size r =
      Some (fold_right Z.add 0
              (map n_customers
                   (filter (fun s => existsb (Z.eqb (ds_decile s)) [1; 3; 10])
                           (calculate_decile_stats frame4_b64)))) /\
    pool_size r = Some 3.
Proof.
  assert (Hsel : forall d, In d [1; 3; 10] -> 1 <= d <= 10)
    by (simpl; intros d H; lia).
  split; [exact Hsel|].
  eexists. split; [reflexivity|]. split; [|reflexivity].
  exact (pool_size_is_sum_of_selected_decile_counts frame4_b64
           [1; 3; 10] (b64 1 2) (b64 1 2) (b64 10 1) _ Hsel eq_refl).
Defined.

Lemma profit_curve_of_empty_selection_witness :
  (forall r, In r frame4_b64 -> isin (decile r) [] = false) /\
  is_nan (b64_of_Z 0) = false /\
  fleb (b64_of_Z 0) (b64_of_Z 0) = true /\
  calculate_profit_curve frame4_b64 [] (b64 1 2) (b64 10 1) 20 =
    Ok {| percentages := grid20;
          profits := repeat (b64_of_Z 0) 20;
          optimal_pct := 5;
          optimal_profit := b64_of_Z 0 |}.
Proof.
  assert (Hsel : forall r, In r frame4_b64 -> isin (decile r) [] = false).
  { intros r [<-|[<-|[<-|[<-|[]]]]]; reflexivity. }
  split; [exact Hsel|]. split; [reflexivity|]. split; [reflexivity|].
  exact (profit_curve_of_empty_selection frame4_b64 [] (b64 1 2) (b64 10 1) 20
           Hsel eq_refl eq_refl).
Defined.

Lemma load_and_prepare_data_needs_two_scores_witness :
  (2 <= length (filter (fun r => negb (is_nan (raw_uplift_score r)))
                       raw14_b64))%nat /\
  (exists rows, load_and_prepare_data raw14_b64 = Ok rows /\
                length rows = length raw14_b64) /\
  load_and_prepare_data [raw PrimFloat.nan 1 0; raw (b64 1 2) 0 1;
                         raw PrimFloat.nan 0 0]
    = Raise ValueError.
Proof.
  assert (Hk : (2 <= length (filter
                               (fun r => negb (is_nan (raw_uplift_score r)))
                               raw14_b64))%nat)
    by (vm_compute; lia).
  split; [exact Hk|]. split.
  - exact (proj2 (load_and_prepare_data_needs_two_scores raw14_b64) Hk).
  - apply (proj1 (load_and_prepare_data_needs_two_scores
                    [raw PrimFloat.nan 1 0; raw (b64 1 2) 0 1;
                     raw PrimFloat.nan 0 0])).
    vm_compute. lia.
Defined.

Lemma load_and_prepare_data_keeps_rows_witness :
  load_and_prepare_data raw5_b64 = Ok rows5_b64 /\
  map uplift_score rows5_b64 = map raw_uplift_score raw5_b64 /\
  map treatment rows5_b64 = map raw_treatment raw5_b64 /\
  map y_true rows5_b64 = map raw_y_true raw5_b64.
Proof.
  assert (H : load_and_prepare_data raw5_b64 = Ok rows5_b64)
    by (vm_compute; reflexivity).
  split; [exact H|].
  exact (load_and_prepare_data_keeps_rows raw5_b64 rows5_b64 H).
Defined.

Lemma load_and_prepare_data_missing_scores_witness :
  load_and_prepare_data raw14_b64 = Ok rows14_b64 /\
  exists rw r,
    nth_error raw14_b64 0 = Some rw /\
    nth_error rows14_b64 0 = Some r /\
    is_nan (raw_uplift_score rw) = true /\
    decile r = None.
Proof.
  assert (H : load_and_prepare_data raw14_b64 = Ok rows14_b64)
    by (vm_compute; reflexivity).
  split; [exact H|].
  do 2 eexists. split; [reflexivity|]. split; [reflexivity|].
  split; [reflexivity|].
  exact (proj1 (load_and_prepare_data_missing_scores raw14_b64 rows14_b64
                  0 _ _ H eq_refl eq_refl) eq_refl).
Defined.


Lemma load_and_prepare_data_deciles_follow_scores_witness :
  load_and_prepare_data raw5 = Ok rows5 /\
  exists rwi rwj ri rj,
    nth_error raw5 2 = Some rwi /\ nth_error raw5 3 = Some rwj /\
    nth_error rows5 2 = Some ri /\ nth_error rows5 3 = Some rj /\
    is_nan (raw_uplift_score rwi) = false /\
    is_nan (raw_uplift_score rwj) = false /\
    fleb (raw_uplift_score rwj) (raw_uplift_score rwi) = false /\
    exists di dj, decile ri = Some di /\ decile rj = Some dj /\ di <= dj.
Proof.
  assert (H : load_and_prepare_data raw5 = Ok rows5) by reflexivity.
  split; [exact H|].
  do 4 eexists.
  split; [reflexivity|]. split; [reflexivity|]. split; [reflexivity|].
  split; [reflexivity|]. split; [reflexivity|]. split; [reflexivity|].
  split; [reflexivity|].
  exact (load_and_prepare_data_deciles_follow_scores raw5 rows5 2 3 _ _ _ _
           H eq_refl eq_refl eq_refl eq_refl eq_refl eq_refl eq_refl).
Defined.

Lemma all_ticked_gives_the_full_portfolio_witness :
  (forall d, 1 <= d <= 10 -> (fun _ : Z => true) d = true) /\
  selected_deciles_of (fun _ => true) = [10; 9; 8; 7; 6; 5; 4; 3; 2; 1] /\
  excluded_deciles (selected_deciles_of (fun _ => true)) = [] /\
  calculate_portfolio_profit frame4_b64 (selected_deciles_of (fun _ => true))
    (b64 1 2) (b64 1 2) (b64 10 1)
  = calculate_portfolio_profit frame4_b64 all_deciles
      (b64 1 2) (b64 1 2) (b64 10 1).
Proof.
  assert (Hall : forall d, 1 <= d <= 10 -> (fun _ : Z => true) d = true)
    by reflexivity.
  split; [exact Hall|]. split; [reflexivity|].
  destruct (all_ticked_gives_the_full_portfolio (fun _ => true) frame4_b64
              (b64 1 2) (b64 1 2) (b64 10 1) Hall) as (Hex & Hcalc & _).
  split; [exact Hex|exact Hcalc].
Defined.

Lemma bar_styles_follow_the_selection_witness :
  let rows := calculate_decile_profits (calculate_decile_stats frame4_b64)
                (b64 1 2) (b64 10 1) in
  exists row,
    nth_error rows 8 = Some row /\
    ds_decile (dp_stats row) = 9 /\
    nth_error (bar_colors (bar_styles_loop rows [9; 10] [] [] [])) 8
      = Some "#e74c3c"%string /\
    nth_error (bar_colors (bar_styles_loop rows [10] [] [] [])) 8
      = Some "#bdc3c7"%string.
Proof.
  intros rows. eexists. split; [reflexivity|]. split; [reflexivity|]. split.
  - pose proof (bar_styles_follow_the_selection rows [9; 10] 8 _ eq_refl) as H.
    cbv zeta in H. destruct H as (_ & _ & _ & _ & Hsel).
    destruct (Hsel eq_refl) as (_ & _ & H9 & _). exact (H9 eq_refl).
  - pose proof (bar_styles_follow_the_selection rows [10] 8 _ eq_refl) as H.
    cbv zeta in H. destruct H as (_ & _ & _ & Hnot & _).
    destruct (Hnot eq_refl) as (Hcol & _). exact Hcol.
Defined.

(** ** The targeted rows are the top-scoring rows *)

Lemma strongly_sorted_app_cross {A : Type} (R : A -> A -> Prop)
    (l1 l2 : list A) :
  StronglySorted R (l1 ++ l2) ->
  forall x y, In x l1 -> In y l2 -> R x y.
Proof.
  induction l1 as [|a l1 IH]; intros Hs x y Hx Hy; [contradiction|].
  simpl in Hs. inversion Hs as [|? ? Hs' Hall]; subst.
  destruct Hx as [<-|Hx].
  - rewrite Forall_forall in Hall. apply Hall, in_or_app. right. exact Hy.
  - apply IH; assumption.
Qed.

Section TopScoring.

Context {F : Type} {FO : FloatOps F} {FL : FloatLaws F}.

Lemma sort_values_desc_strongly_sorted (pool : list (Row F)) :
  (forall r, In r pool -> is_nan (uplift_score r) = false) ->
  StronglySorted (fun a b => fleb (uplift_score b) (uplift_score a) = true)
                 (sort_values_desc pool).
Proof.
  intros Hnan. unfold sort_values_desc.
  rewrite (filter_none (fun r => is_nan (uplift_score r)) pool Hnan).
  rewrite app_nil_r. apply Sorted_StronglySorted.
  - intros a b c Hab Hbc. eapply fleb_trans; eassumption.
  - apply (sort_by_sorted
             (fun a b : Row F => fleb (uplift_score b) (uplift_score a))).
    intros a b Ha Hb. apply filter_In in Ha, Hb.
    destruct Ha as [Ha _], Hb as [Hb _].
    destruct (fleb_total (uplift_score a) (uplift_score b)
                (Hnan a Ha) (Hnan b Hb)); auto.
Qed.

(** The targeted set is the top of the pool: for a non-negative count and a
    pool without missing scores, the pool splits into the targeted rows and
    the remaining rows, and no remaining row has a score above that of a
    targeted row. *)
Theorem targeted_rows_are_top_scoring (pool : list (Row F)) (n : Z) :
  (forall r, In r pool -> is_nan (uplift_score r) = false) ->
  0 <= n ->
  exists rest,
    Permutation (targeted_rows pool n ++ rest) pool /\
    forall x y, In x (targeted_rows pool n) -> In y rest ->
                fleb (uplift_score y) (uplift_score x) = true.
Proof.
  intros Hnan Hn. unfold targeted_rows, head.
  replace (0 <=? n) with true by (symmetry; apply Z.leb_le; exact Hn).
  exists (skipn (Z.to_nat n) (sort_values_desc pool)). split.
  - rewrite firstn_skipn. apply sort_values_desc_perm.
  - apply (strongly_sorted_app_cross
             (fun a b : Row F => fleb (uplift_score b) (uplift_score a) = true)).
    rewrite firstn_skipn. apply sort_values_desc_strongly_sorted, Hnan.
Qed.

End TopScoring.

Lemma targeted_rows_are_top_scoring_witness :
  (forall r, In r frame4 -> is_nan (uplift_score r) = false) /\
  0 <= 2 /\
  map uplift_score (targeted_rows frame4 2) = [xq 3 4; xq 1 2] /\
  exists rest,
    Permutation (targeted_rows frame4 2 ++ rest) frame4 /\
    forall x y, In x (targeted_rows frame4 2) -> In y rest ->
                fleb (uplift_score y) (uplift_score x) = true.
Proof.
  assert (Hnan : forall r, In r frame4 -> is_nan (uplift_score r) = false).
  { intros r [<-|[<-|[<-|[<-|[]]]]]; reflexivity. }
  split; [exact Hnan|]. split; [lia|]. split; [reflexivity|].
  exact (targeted_rows_are_top_scoring frame4 2 Hnan ltac:(lia)).
Defined.

(** ** Ties keep the original order *)

Lemma precedes_cons {A : Type} (a b y : A) (l : list A) :
  precedes a b (y :: l) <-> (a = y /\ In b l) \/ precedes a b l.
Proof.
  unfold precedes. split.
  - intros (l1 & l2 & l3 & H). destruct l1 as [|z l1]; simpl in H.
    + injection H as -> ->. left. split; [reflexivity|].
      apply in_or_app. right. left. reflexivity.
    + injection H as -> ->. right. exists l1, l2, l3. reflexivity.
  - intros [[-> Hb]|(l1 & l2 & l3 & ->)].
    + apply in_split in Hb. destruct Hb as (l2 & l3 & ->).
      exists [], l2, l3. reflexivity.
    + exists (y :: l1), l2, l3. reflexivity.
Qed.

Lemma precedes_In {A : Type} (a b : A) (l : list A) :
  precedes a b l -> In a l /\ In b l.
Proof.
  intros (l1 & l2 & l3 & ->). split.
  - apply in_or_app. right. left. reflexivity.
  - apply in_or_app. right. right. apply in_or_app. right. left. reflexivity.
Qed.

Lemma precedes_insert_old {A : Type} (leb : A -> A -> bool) (x a b : A)
    (l : list A) :
  precedes a b l -> precedes a b (insert_by leb x l).
Proof.
  induction l as [|y l IH]; intros H.
  - destruct H as (l1 & l2 & l3 & H). destruct l1; discriminate.
  - simpl. destruct (leb x y).
    + apply precedes_cons. right. exact H.
    + apply precedes_cons in H. apply precedes_cons.
      destruct H as [[-> Hb]|H].
      * left. split; [reflexivity|].
        apply (Permutation_in _ (Permutation_sym (insert_by_perm leb x l))).
        right. exact Hb.
      * right. apply IH, H.
Qed.

Lemma precedes_insert_new {A : Type} (leb : A -> A -> bool) (x b : A)
    (l : list A) :
  In b l -> leb x b = true -> precedes x b (insert_by leb x l).
Proof.
  induction l as [|y l IH]; intros Hb Hle; [contradiction|].
  simpl. destruct (leb x y) eqn:E.
  - apply precedes_cons. left. split; [reflexivity|exact Hb].
  - apply precedes_cons. right. apply IH; [|exact Hle].
    destruct Hb as [->|Hb]; [congruence|exact Hb].
Qed.

Lemma sort_by_keeps_order_of_ties (leb : nat -> nat -> bool) (l : list nat) :
  StronglySorted lt l ->
  forall a b, In a l -> In b l -> (a < b)%nat -> leb a b = true ->
              precedes a b (sort_by leb l).
Proof.
  induction 1 as [|x l Hs IH Hall]; intros a b Ha Hb Hab Hle;
    [contradiction|].
  rewrite Forall_forall in Hall. simpl.
  destruct Ha as [<-|Ha].
  - destruct Hb as [<-|Hb]; [lia|].
    apply precedes_insert_new; [|exact Hle].
    apply (Permutation_in _ (Permutation_sym (sort_by_perm leb l))). exact Hb.
  - destruct Hb as [<-|Hb].
    + specialize (Hall a Ha). lia.
    + apply precedes_insert_old. apply IH; assumption.
Qed.

Lemma precedes_positions (l : list nat) :
  NoDup l ->
  forall a b p q,
    precedes a b l -> index_of a l = Some p -> index_of b l = Some q ->
    (p < q)%nat.
Proof.
  induction 1 as [|y l Hy Hnd IH]; intros a b p q Hpre Hp Hq.
  - destruct Hpre as (l1 & l2 & l3 & H). destruct l1; discriminate.
  - apply precedes_cons in Hpre. simpl in Hp, Hq.
    destruct (Nat.eqb a y) eqn:Ea.
    + apply Nat.eqb_eq in Ea. subst y. injection Hp as <-.
      assert (Hb : In b l).
      { destruct Hpre as [[_ Hb]|Hpre]; [exact Hb|].
        apply precedes_In in Hpre. tauto. }
      destruct (Nat.eqb b a) eqn:Eb.
      * apply Nat.eqb_eq in Eb. subst b. contradiction.
      * destruct (index_of b l); [|discriminate]. injection Hq as <-. lia.
    + destruct Hpre as [[-> _]|Hpre];
        [rewrite Nat.eqb_refl in Ea; discriminate|].
      destruct (index_of a l) as [p'|] eqn:Ep; [|discriminate].
      injection Hp as <-.
      destruct (Nat.eqb b y) eqn:Eb.
      * apply Nat.eqb_eq in Eb. subst y. apply precedes_In in Hpre. tauto.
      * destruct (index_of b l) as [q'|] eqn:Eq; [|discriminate].
        injection Hq as <-.
        specialize (IH a b p' q' Hpre Ep Eq). lia.
Qed.

Lemma seq_strongly_sorted (n s : nat) : StronglySorted lt (seq s n).
Proof.
  revert s. induction n as [|n IH]; intros s; simpl; constructor.
  - apply IH.
  - apply Forall_forall. intros y Hy. apply in_seq in Hy. lia.
Qed.

Lemma filter_strongly_sorted {A : Type} (R : A -> A -> Prop)
    (g : A -> bool) (l : list A) :
  StronglySorted R l -> StronglySorted R (filter g l).
Proof.
  induction 1 as [|x l Hs IH Hall]; simpl; [constructor|].
  destruct (g x); [|exact IH]. constructor; [exact IH|].
  rewrite Forall_forall in *. intros y Hy. apply filter_In in Hy.
  apply Hall. tauto.
Qed.

Section TieOrder.

Context {F : Type} {FO : FloatOps F}.

(** Of two positions with scores [x_i <= x_j] and [i] before [j], the
    first has the lower rank. *)
Lemma rank_at_stable (xs : list F) (i j : nat) (ri rj : Z) :
  rank_at xs i = Some ri -> rank_at xs j = Some rj ->
  (i < j)%nat ->
  fleb (nth i xs fnan) (nth j xs fnan) = true ->
  ri < rj.
Proof.
  unfold rank_at. intros Hi Hj Hij Hle.
  destruct (index_of i (argsort xs)) as [p|] eqn:Ep; [|discriminate].
  destruct (index_of j (argsort xs)) as [q|] eqn:Eq; [|discriminate].
  simpl in Hi, Hj. injection Hi as <-. injection Hj as <-.
  assert (Hini : In i (argsort xs)) by (eapply index_of_Some_In; eassumption).
  assert (Hinj : In j (argsort xs)) by (eapply index_of_Some_In; eassumption).
  assert (Hpre : precedes i j (argsort xs)).
  { unfold argsort in *.
    apply (sort_by_keeps_order_of_ties
             (fun a b => fleb (nth a xs fnan) (nth b xs fnan))).
    - apply filter_strongly_sorted, seq_strongly_sorted.
    - eapply Permutation_in; [apply sort_by_perm|exact Hini].
    - eapply Permutation_in; [apply sort_by_perm|exact Hinj].
    - exact Hij.
    - exact Hle. }
  pose proof (precedes_positions _ (argsort_NoDup xs) i j p q Hpre Ep Eq).
  lia.
Qed.

(** Ties are broken by the original order: of two records with proper
    scores, the earlier one never gets the higher decile when its score is
    not above the score of the later one, in particular when the two scores
    are equal. *)
Theorem load_and_prepare_data_ties_keep_order
    (raw : list (RawRow F)) (rows : list (Row F))
    (i j : nat) (rwi rwj : RawRow F) (ri rj : Row F) :
  load_and_prepare_data raw = Ok rows ->
  nth_error raw i = Some rwi -> nth_error raw j = Some rwj ->
  nth_error rows i = Some ri -> nth_error rows j = Some rj ->
  is_nan (raw_uplift_score rwi) = false ->
  is_nan (raw_uplift_score rwj) = false ->
  (i < j)%nat ->
  fleb (raw_uplift_score rwi) (raw_uplift_score rwj) = true ->
  exists di dj, decile ri = Some di /\ decile rj = Some dj /\ di <= dj.
Proof.
  intros Hload Hrwi Hrwj Hri Hrj Hnani Hnanj Hij Hle.
  destruct (load_rows_spec raw) as [Hfail Hok].
  set (xs := map raw_uplift_score raw) in *.
  set (n' := length (argsort xs)) in *.
  destruct (Nat.lt_ge_cases n' 2) as [Hlt2|Hge].
  { rewrite (Hfail Hlt2) in Hload. discriminate. }
  destruct (Hok Hge) as (rows' & Hrows' & Hlen & Hdec).
  rewrite Hload in Hrows'. injection Hrows' as <-.
  assert (Hpoint : forall k rw r,
            nth_error raw k = Some rw -> nth_error rows k = Some r ->
            is_nan (raw_uplift_score rw) = false ->
            nth k xs fnan = raw_uplift_score rw /\
            exists rk, rank_at xs k = Some rk /\
                       1 <= rk <= Z.of_nat n' /\
                       decile r = Some (rank_decile (Z.of_nat n' - 1) rk)).
  { intros k rw r Hrw Hr Hnan.
    assert (Hk : (k < length raw)%nat).
    { apply nth_error_Some. rewrite Hrw. discriminate. }
    assert (Hscore : nth k xs fnan = raw_uplift_score rw).
    { apply nth_error_nth. unfold xs. rewrite nth_error_map, Hrw.
      reflexivity. }
    split; [exact Hscore|].
    destruct (rank_at_present xs k) as (rk & Hrk & Hrange).
    { unfold xs. rewrite length_map. exact Hk. }
    { rewrite Hscore. exact Hnan. }
    exists rk. split; [exact Hrk|]. split; [exact Hrange|].
    apply (f_equal (fun l => nth_error l k)) in Hdec.
    rewrite !nth_error_map, Hr, nth_error_seq in Hdec.
    apply Nat.ltb_lt in Hk. rewrite Hk in Hdec. simpl in Hdec.
    injection Hdec as Hdec. rewrite Hdec, Hrk.
    apply cut_label_rank; lia. }
  destruct (Hpoint i rwi ri Hrwi Hri Hnani) as (Hsi & rki & Hrki & Hbi & Hdi).
  destruct (Hpoint j rwj rj Hrwj Hrj Hnanj) as (Hsj & rkj & Hrkj & Hbj & Hdj).
  assert (Hrank : rki < rkj).
  { apply (rank_at_stable xs i j rki rkj Hrki Hrkj Hij).
    rewrite Hsi, Hsj. exact Hle. }
  exists (rank_decile (Z.of_nat n' - 1) rki),
         (rank_decile (Z.of_nat n' - 1) rkj).
  split; [exact Hdi|]. split; [exact Hdj|].
  apply rank_decile_mono; lia.
Qed.

End TieOrder.

Lemma load_and_prepare_data_ties_keep_order_witness :
  load_and_prepare_data raw5_b64 = Ok rows5_b64 /\
  exists rwi rwj ri rj,
    nth_error raw5_b64 0 = Some rwi /\ nth_error raw5_b64 4 = Some rwj /\
    nth_error rows5_b64 0 = Some ri /\ nth_error rows5_b64 4 = Some rj /\
    raw_uplift_score rwi = raw_uplift_score rwj /\
    exists di dj, decile ri = Some di /\ decile rj = Some dj /\ di <= dj.
Proof.
  assert (H : load_and_prepare_data raw5_b64 = Ok rows5_b64)
    by (vm_compute; reflexivity).
  split; [exact H|].
  do 4 eexists.
  split; [reflexivity|]. split; [reflexivity|]. split; [reflexivity|].
  split; [reflexivity|]. split; [reflexivity|].
  exact (load_and_prepare_data_ties_keep_order raw5_b64 rows5_b64 0 4 _ _ _ _
           H eq_refl eq_refl eq_refl eq_refl eq_refl eq_refl
           ltac:(lia) eq_refl).
Defined.
